(** * The scheduling and trigger orchestrator of the agent

    A shallow embedding of [agent/orchestrator.py]: the [Task] record, the
    [Orchestrator] (periodic tasks with jittered intervals) and the
    [TriggerManager] (keyword and mention rules), followed by the properties
    of the scheduler and of the dispatcher.

    Conventions of the embedding.
    - Python objects live in explicit state.  A method of a class is a
      computation in the monad [M Obj], which threads the instance, the part
      of the world the user callbacks act on, and a trace.
    - The trace holds what the module hands to [logger], one ghost event
      [Called] for every invocation of a user callable and one event [Slept]
      for every [asyncio.sleep].
    - A user callable may raise; [outcome] keeps a normal return apart from a
      propagating exception, and [try_except] is [except Exception].
    - [datetime.now()] and [random.random()] are inputs: every resumption of a
      task loop is given an [oracle] with the two values it reads.
    - Python floats are idealised as exact rationals ([Q]); strings are
      8-bit strings and [lower] is the ASCII part of [str.lower].
    - asyncio is cooperative: a coroutine runs without interruption between
      two awaits.  A user callable is taken as one atomic step. *)

From Stdlib Require Import ZArith QArith Lqa String Ascii List.
From stdpp Require Import gmap strings list.

Open Scope string_scope.
Open Scope list_scope.

(** ** Values, exceptions, log records *)

(** The values a [context] dictionary holds, as far as the dispatcher looks
    at them (it only tests one entry for truth). *)
Inductive pyval :=
| PyNone
| PyBool (b : bool)
| PyInt (z : Z)
| PyStr (s : string).

(** Python's truth value of an object. *)
Definition truthy (v : pyval) : bool :=
  match v with
  | PyNone => false
  | PyBool b => b
  | PyInt z => negb (z =? 0)%Z
  | PyStr s => negb (String.eqb s "")
  end.

(** An exception object.  [derives_Exception] tells the instances of
    [Exception] from the other [BaseException]s ([KeyboardInterrupt],
    [asyncio.CancelledError], ...), which [except Exception] lets through. *)
Record exn := mkExn { derives_Exception : bool; exn_text : string }.

Inductive outcome (A : Type) :=
| Returned (a : A)
| Raised (e : exn).
Arguments Returned {A} a.
Arguments Raised {A} e.

Inductive level := DEBUG | INFO | WARNING | ERROR.

(** The messages of the module, one constructor per format string. *)
Inductive log_message :=
| OrchestratorInitialized
| AddedTask (name : string) (interval_seconds : Z)
| RemovedTask (name : string)
| EnabledTask (name : string)
| DisabledTask (name : string)
| ExecutingTask (name : string)
| TaskCompleted (name : string) (run_count : Z)
| TaskFailed (name : string) (e : exn)
| TaskNextRun (name : string) (next_run : Q)
| AlreadyRunning
| StartingOrchestrator
| OrchestratorCancelled
| StoppingOrchestrator
| TriggerManagerInitialized
| AddedKeywordTrigger (keywords : list string)
| AddedMentionTrigger
| KeywordTriggerActivated (keyword : string)
| MentionTriggerActivated.

Inductive event :=
| Logged (lvl : level) (msg : log_message)
| Called (fname : string)
| Slept (seconds : Q).

Definition is_call (fname : string) (ev : event) : bool :=
  match ev with
  | Called f => String.eqb f fname
  | _ => false
  end.

Definition is_any_call (ev : event) : bool :=
  match ev with
  | Called _ => true
  | _ => false
  end.

(** How many times the callable named [fname] was invoked in a trace. *)
Definition calls_of (fname : string) (tr : list event) : nat :=
  length (List.filter (is_call fname) tr).

Definition calls (tr : list event) : nat :=
  length (List.filter is_any_call tr).

(** ** Strings *)

Definition lower_ascii (c : ascii) : ascii :=
  let n := nat_of_ascii c in
  if ((65 <=? n) && (n <=? 90))%nat then ascii_of_nat (n + 32) else c.

(** [s.lower()] *)
Fixpoint lower (s : string) : string :=
  match s with
  | EmptyString => EmptyString
  | String c s' => String (lower_ascii c) (lower s')
  end.

(** [keyword in text] *)
Fixpoint contains (text keyword : string) : bool :=
  String.prefix keyword text
  || match text with
     | EmptyString => false
     | String _ text' => contains text' keyword
     end.

(** ** The state monad of the embedding *)

Section Embedding.

Context {World : Type}.

(** A user-supplied callable: its [__name__], whether it was declared
    [async def], and what calling it does to the world. *)
Record Callable (Args : Type) := mkCallable {
  fname : string;
  is_coroutine : bool;
  body : Args -> World -> World * option exn
}.
Arguments fname {Args} c.
Arguments is_coroutine {Args} c.
Arguments body {Args} c.

Record state (Obj : Type) := mkState {
  self : Obj;
  world : World;
  trace : list event
}.
Arguments mkState {Obj} self world trace.
Arguments self {Obj} s.
Arguments world {Obj} s.
Arguments trace {Obj} s.

Definition M (Obj A : Type) : Type := state Obj -> state Obj * outcome A.

Definition ret {Obj A} (a : A) : M Obj A := fun st => (st, Returned a).

Definition bind {Obj A B} (m : M Obj A) (k : A -> M Obj B) : M Obj B :=
  fun st =>
    match m st with
    | (st', Returned a) => k a st'
    | (st', Raised e) => (st', Raised e)
    end.

(** [try: m  except Exception as e: handler e] *)
Definition try_except {Obj A} (m : M Obj A) (handler : exn -> M Obj A) : M Obj A :=
  fun st =>
    match m st with
    | (st', Returned a) => (st', Returned a)
    | (st', Raised e) =>
        if derives_Exception e then handler e st' else (st', Raised e)
    end.

Definition gets {Obj A} (f : Obj -> A) : M Obj A :=
  fun st => (st, Returned (f (self st))).

Definition modify {Obj} (f : Obj -> Obj) : M Obj unit :=
  fun st => (mkState (f (self st)) (world st) (trace st), Returned tt).

Definition emit {Obj} (ev : event) : M Obj unit :=
  fun st => (mkState (self st) (world st) (trace st ++ [ev]), Returned tt).

Definition log {Obj} (lvl : level) (msg : log_message) : M Obj unit :=
  emit (Logged lvl msg).

(** [callback(args)]: the body runs on the world and may raise. *)
Definition call {Obj Args} (callback : Callable Args) (args : Args) : M Obj unit :=
  fun st =>
    let st1 := mkState (self st) (world st) (trace st ++ [Called (fname callback)]) in
    match body callback args (world st1) with
    | (w, None) => (mkState (self st1) w (trace st1), Returned tt)
    | (w, Some e) => (mkState (self st1) w (trace st1), Raised e)
    end.

(** [await coro]: between two awaits nothing else runs, so awaiting a
    callable's coroutine is running its body. *)
Definition await {Obj A} (coro : M Obj A) : M Obj A := coro.

(** [await asyncio.sleep(seconds)] *)
Definition sleep {Obj} (seconds : Q) : M Obj unit := emit (Slept seconds).

(** [callback(args)] or [await callback(args)], as
    [asyncio.iscoroutinefunction] says. *)
Definition invoke {Obj Args} (callback : Callable Args) (args : Args) : M Obj unit :=
  if is_coroutine callback then await (call callback args) else call callback args.

End Embedding.

Arguments Callable World Args : clear implicits.
Arguments mkCallable {World} Args fname is_coroutine body.
Arguments fname {World Args} c.
Arguments is_coroutine {World Args} c.
Arguments body {World Args} c.
Arguments state World Obj : clear implicits.
Arguments mkState {World Obj} self world trace.
Arguments self {World Obj} s.
Arguments world {World Obj} s.
Arguments trace {World Obj} s.
Arguments M World Obj A : clear implicits.

Declare Scope py_scope.
Delimit Scope py_scope with py.
Notation "'let!' x := m 'in' k" := (bind m (fun x => k))
  (at level 10, x name, m at level 100, k at level 200) : py_scope.
Notation "m ;;; k" := (bind m (fun _ => k))
  (at level 100, k at level 200, right associativity) : py_scope.
Open Scope py_scope.

(** [for x in l: f x] *)
Fixpoint for_each {World Obj A} (l : list A) (f : A -> M World Obj unit)
    : M World Obj unit :=
  match l with
  | [] => ret tt
  | x :: l' => f x ;;; for_each l' f
  end.

(** A [for] loop that assigns one local variable, passed along as [acc]. *)
Fixpoint fold_each {World Obj A B} (l : list A) (f : B -> A -> M World Obj B) (acc : B)
    : M World Obj B :=
  match l with
  | [] => ret acc
  | x :: l' => let! acc' := f acc x in fold_each l' f acc'
  end.

(** ** Task and Orchestrator *)

(** A reference to a [Task] object: its position in the heap. *)
Abbreviation addr := nat.

Section Scheduler.

Context {World : Type}.

(** [@dataclass class Task] *)
Record Task := mkTask {
  name : string;
  callback : Callable World unit;
  interval_seconds : Z;
  enabled : bool;
  last_run : option Z;
  run_count : Z
}.

Definition set_enabled (b : bool) (t : Task) : Task :=
  mkTask (name t) (callback t) (interval_seconds t) b (last_run t) (run_count t).

Definition set_last_run (now : Z) (t : Task) : Task :=
  mkTask (name t) (callback t) (interval_seconds t) (enabled t) (Some now) (run_count t).

Definition incr_run_count (t : Task) : Task :=
  mkTask (name t) (callback t) (interval_seconds t) (enabled t) (last_run t)
         (run_count t + 1)%Z.

(** The [Orchestrator] instance ([agent] and [memory_store] are stored and
    never read, and are left out), together with the [Task] objects it has
    created ([heap], a reference to a task is its position) and the
    [_task_loop] coroutines [start] has handed to [asyncio.gather] ([loops],
    each with the task it was created for). *)
Record Orchestrator := mkOrchestrator {
  variance_factor : Q;
  tasks : list addr;
  running : bool;
  heap : list Task;
  loops : list addr
}.

Definition set_tasks (l : list addr) (o : Orchestrator) : Orchestrator :=
  mkOrchestrator (variance_factor o) l (running o) (heap o) (loops o).

Definition set_running (b : bool) (o : Orchestrator) : Orchestrator :=
  mkOrchestrator (variance_factor o) (tasks o) b (heap o) (loops o).

Definition set_heap (h : list Task) (o : Orchestrator) : Orchestrator :=
  mkOrchestrator (variance_factor o) (tasks o) (running o) h (loops o).

Definition set_loops (l : list addr) (o : Orchestrator) : Orchestrator :=
  mkOrchestrator (variance_factor o) (tasks o) (running o) (heap o) l.

(** What a reference that was never allocated would read; every reference
    the methods follow comes from [tasks] or [loops]. *)
Definition no_task : Task :=
  mkTask "" (mkCallable unit "" false (fun _ w => (w, None))) 0 false None 0.

#[global] Instance Task_inhabited : Inhabited Task := populate no_task.

Definition deref (task : addr) : M World Orchestrator Task :=
  gets (fun o => heap o !!! task).

Definition update (task : addr) (f : Task -> Task) : M World Orchestrator unit :=
  modify (fun o => set_heap (alter f task (heap o)) o).

(** [Task(...)]: a new object, at the next free position. *)
Definition new_task (t : Task) : M World Orchestrator addr :=
  let! h := gets heap in
  modify (set_heap (h ++ [t])) ;;;
  ret (length h).

(** [Orchestrator.__init__] *)
Definition init (variance_factor : Q) (w : World) : state World Orchestrator :=
  mkState (mkOrchestrator variance_factor [] false [] []) w
          [Logged INFO OrchestratorInitialized].

Definition add_task (name : string) (callback : Callable World unit)
    (interval_seconds : Z) (enabled : bool) : M World Orchestrator unit :=
  let! task := new_task (mkTask name callback interval_seconds enabled None 0) in
  let! ts := gets tasks in
  modify (set_tasks (ts ++ [task])) ;;;
  log INFO (AddedTask name interval_seconds).

Definition remove_task (name_ : string) : M World Orchestrator unit :=
  let! h := gets heap in
  let! ts := gets tasks in
  modify (set_tasks (List.filter (fun t => negb (String.eqb (name (h !!! t)) name_)) ts)) ;;;
  log INFO (RemovedTask name_).

Definition enable_task (name_ : string) : M World Orchestrator unit :=
  let! ts := gets tasks in
  for_each ts (fun task =>
    let! t := deref task in
    if String.eqb (name t) name_
    then update task (set_enabled true) ;;; log INFO (EnabledTask name_)
    else ret tt).

Definition disable_task (name_ : string) : M World Orchestrator unit :=
  let! ts := gets tasks in
  for_each ts (fun task =>
    let! t := deref task in
    if String.eqb (name t) name_
    then update task (set_enabled false) ;;; log INFO (DisabledTask name_)
    else ret tt).

(** [random.uniform(a, b)] is [a + (b - a) * self.random()]; [u] is the
    value [random()] returned, a number of [[0, 1)]. *)
Definition uniform (u : Q) (a b : Q) : Q := (a + (b - a) * u)%Q.

(** [max(a, b)]: the second argument wins only when it is greater. *)
Definition max_ (a b : Q) : Q := if Qle_bool b a then a else b.

Definition _calculate_next_run (variance_factor : Q) (u : Q) (task : Task) : Q :=
  let base_interval := inject_Z (interval_seconds task) in
  let variance := (base_interval * variance_factor)%Q in
  let adjustment := uniform u (- variance)%Q variance in
  let next_interval := (base_interval + adjustment)%Q in
  max_ 1%Q next_interval.

(** [now] is what [datetime.now()] returns when the callback is back. *)
Definition _run_task (now : Z) (task : addr) : M World Orchestrator unit :=
  try_except
    (let! t := deref task in
     log INFO (ExecutingTask (name t)) ;;;
     invoke (callback t) tt ;;;
     update task (set_last_run now) ;;;
     update task incr_run_count ;;;
     let! t' := deref task in
     log INFO (TaskCompleted (name t') (run_count t')))
    (fun e =>
     let! t := deref task in
     log ERROR (TaskFailed (name t) e)).

(** What one iteration of a task loop reads from outside. *)
Record oracle := mkOracle { now_ : Z; random_ : Q }.

(** The body of [while self.running] in [_task_loop]. *)
Definition _task_loop_body (o : oracle) (task : addr) : M World Orchestrator unit :=
  (let! t := deref task in
   if enabled t then await (_run_task (now_ o) task) else ret tt) ;;;
  let! t := deref task in
  let! vf := gets variance_factor in
  let next_run := _calculate_next_run vf (random_ o) t in
  log DEBUG (TaskNextRun (name t) next_run) ;;;
  await (sleep next_run).

Inductive loop_state := Exited | Suspended.

(** [_task_loop], for as many iterations as there are oracles: the loop
    either finds [running] false and ends, or is left suspended in its
    sleep.  Resuming it later is running [_task_loop] on the same task
    again, since an iteration starts by the test of [self.running]. *)
Fixpoint _task_loop (os : list oracle) (task : addr) : M World Orchestrator loop_state :=
  match os with
  | [] => ret Suspended
  | o :: os' =>
      let! r := gets running in
      if r then _task_loop_body o task ;;; _task_loop os' task
      else ret Exited
  end.

(** How the [asyncio.gather] of the task loops ends for [start]: every
    loop has left its [while], or an [asyncio.CancelledError] comes out, or
    another exception does. *)
Inductive gathered := AllExited | Cancelled | Failed (e : exn).

(** The end of [start], run when [gather] is over: [except
    asyncio.CancelledError] logs, [finally] clears [running], and any other
    exception goes on to the caller after the [finally]. *)
Definition start_finish (g : gathered) : M World Orchestrator unit :=
  match g with
  | AllExited => modify (set_running false)
  | Cancelled => log INFO OrchestratorCancelled ;;; modify (set_running false)
  | Failed e => modify (set_running false) ;;; (fun st => (st, Raised e))
  end.

(** [start], up to the point where it is suspended in [await
    asyncio.gather(...)]: from there on the loops it created run, one
    resumption at a time, and [start_finish] is the rest.  With no task
    registered there is nothing to wait for: [gather()] is over at once and
    [start] runs to its end. *)
Definition start : M World Orchestrator unit :=
  let! r := gets running in
  if r then log WARNING AlreadyRunning
  else
    modify (set_running true) ;;;
    log INFO StartingOrchestrator ;;;
    let! ts := gets tasks in
    let! ls := gets loops in
    modify (set_loops (ls ++ ts)) ;;;
    match ts with
    | [] => start_finish AllExited
    | _ :: _ => ret tt
    end.

Definition stop : M World Orchestrator unit :=
  log INFO StoppingOrchestrator ;;;
  modify (set_running false).

(** One entry of the ["tasks"] list of [get_status]; [last_run] is kept as
    the timestamp instead of its ISO rendering. *)
Record task_status := mkTaskStatus {
  status_name : string;
  status_enabled : bool;
  status_interval : Z;
  status_last_run : option Z;
  status_run_count : Z
}.

Record status := mkStatus {
  status_running : bool;
  status_tasks : list task_status
}.

Definition get_status (o : Orchestrator) : status :=
  mkStatus (running o)
    (map (fun a =>
            let t := heap o !!! a in
            mkTaskStatus (name t) (enabled t) (interval_seconds t) (last_run t) (run_count t))
         (tasks o)).

End Scheduler.

Arguments Task World : clear implicits.
Arguments Orchestrator World : clear implicits.

(** ** TriggerManager *)

Abbreviation context := (gmap string pyval).

Section Dispatcher.

Context {World : Type}.

(** A trigger dictionary; the ["type"] entry is the constructor. *)
Inductive Trigger :=
| keyword_trigger (keywords : list string) (case_sensitive : bool)
    (callback : Callable World (string * context))
| mention_trigger (callback : Callable World (string * context)).

Definition trigger_callback (t : Trigger) : Callable World (string * context) :=
  match t with
  | keyword_trigger _ _ callback => callback
  | mention_trigger callback => callback
  end.

(** The [TriggerManager] instance ([agent] and [memory_store] left out). *)
Record TriggerManager := mkTriggerManager { triggers : list Trigger }.

Definition init_triggers (w : World) : state World TriggerManager :=
  mkState (mkTriggerManager []) w [Logged INFO TriggerManagerInitialized].

Definition append_trigger (t : Trigger) (tm : TriggerManager) : TriggerManager :=
  mkTriggerManager (triggers tm ++ [t]).

Definition add_keyword_trigger (keywords : list string)
    (callback : Callable World (string * context)) (case_sensitive : bool)
    : M World TriggerManager unit :=
  let trigger :=
    keyword_trigger (if case_sensitive then keywords else map lower keywords)
                    case_sensitive callback in
  modify (append_trigger trigger) ;;;
  log INFO (AddedKeywordTrigger keywords).

Definition add_mention_trigger (callback : Callable World (string * context))
    : M World TriggerManager unit :=
  let trigger := mention_trigger callback in
  modify (append_trigger trigger) ;;;
  log INFO AddedMentionTrigger.

(** [context.get(key, default)] *)
Definition get (ctx : context) (key : string) (default_ : pyval) : pyval :=
  default default_ (ctx !! key).

(** The body of [for keyword in trigger["keywords"]]. *)
Definition check_keyword (message : string) (ctx : context)
    (callback : Callable World (string * context)) (text : string)
    (triggered : bool) (keyword : string) : M World TriggerManager bool :=
  if contains text keyword then
    log INFO (KeywordTriggerActivated keyword) ;;;
    invoke callback (message, ctx) ;;;
    ret true
  else ret triggered.

(** The body of [for trigger in self.triggers]. *)
Definition check_trigger (message : string) (ctx : context)
    (triggered : bool) (trigger : Trigger) : M World TriggerManager bool :=
  match trigger with
  | keyword_trigger keywords case_sensitive callback =>
      let text := if case_sensitive then message else lower message in
      fold_each keywords (check_keyword message ctx callback text) triggered
  | mention_trigger callback =>
      if truthy (get ctx "is_mention" (PyBool false)) then
        log INFO MentionTriggerActivated ;;;
        invoke callback (message, ctx) ;;;
        ret true
      else ret triggered
  end.

Definition check_triggers (message : string) (ctx : context)
    : M World TriggerManager bool :=
  let! ts := gets triggers in
  fold_each ts (check_trigger message ctx) false.

End Dispatcher.

Arguments Trigger World : clear implicits.
Arguments TriggerManager World : clear implicits.

(** ** Reading the dispatcher's conditions off a rule *)

Section Conditions.

Context {World : Type}.

(** The text a keyword rule searches: the message, lowered unless the rule
    is case sensitive. *)
Definition searched_text (case_sensitive : bool) (message : string) : string :=
  if case_sensitive then message else lower message.

(** The keywords of a rule found in the message, in the rule's order. *)
Definition matching_keywords (keywords : list string) (case_sensitive : bool)
    (message : string) : list string :=
  List.filter (contains (searched_text case_sensitive message)) keywords.

Definition is_mention (ctx : context) : bool :=
  truthy (get ctx "is_mention" (PyBool false)).

(** How often [check_triggers] reaches the call of a rule's callback. *)
Definition invocations (message : string) (ctx : context) (t : Trigger World) : nat :=
  match t with
  | keyword_trigger keywords case_sensitive _ =>
      length (matching_keywords keywords case_sensitive message)
  | mention_trigger _ => if is_mention ctx then 1 else 0
  end.

(** A rule fires when its condition holds for the message. *)
Definition fires (message : string) (ctx : context) (t : Trigger World) : bool :=
  match t with
  | keyword_trigger keywords case_sensitive _ =>
      existsb (contains (searched_text case_sensitive message)) keywords
  | mention_trigger _ => is_mention ctx
  end.

(** One invocation by a keyword rule: the activation line and the call. *)
Definition hit_events (callback : Callable World (string * context)) (keyword : string)
    : list event :=
  [Logged INFO (KeywordTriggerActivated keyword); Called (fname callback)].

(** One invocation by a mention rule. *)
Definition mention_events (callback : Callable World (string * context)) : list event :=
  [Logged INFO MentionTriggerActivated; Called (fname callback)].

(** The world after [n] calls of a callback that returns. *)
Definition called_times (n : nat) (callback : Callable World (string * context))
    (message : string) (ctx : context) (w : World) : World :=
  Nat.iter n (fun w' => fst (body callback (message, ctx) w')) w.

(** What a rule whose callback returns adds to the trace in one call of
    [check_triggers]: per invocation the activation line and the call. *)
Definition firing_events (message : string) (ctx : context) (t : Trigger World)
    : list event :=
  match t with
  | keyword_trigger keywords case_sensitive callback =>
      flat_map (hit_events callback) (matching_keywords keywords case_sensitive message)
  | mention_trigger callback =>
      if is_mention ctx then mention_events callback else []
  end.


(** The world after a call of [check_triggers] in which every callback
    returned. *)
Definition dispatched (message : string) (ctx : context) (ts : list (Trigger World))
    (w : World) : World :=
  fold_left (fun w' t =>
               called_times (invocations message ctx t) (trigger_callback t) message ctx w')
            ts w.

(** A callable that returns normally whatever it is given. *)
Definition quiet {Args} (c : Callable World Args) : Prop :=
  forall args w, snd (body c args w) = None.

End Conditions.

(** ** Reading the scheduler's effects off a task *)

Section SchedulerNotions.

Context {World : Type}.

(** The task after a run that completed at [now]. *)
Definition completed (now : Z) (t : Task World) : Task World :=
  mkTask (name t) (callback t) (interval_seconds t) (enabled t) (Some now)
         (run_count t + 1)%Z.

(** The two events that end every iteration of a task loop. *)
Definition nap (vf : Q) (o : oracle) (t : Task World) : list event :=
  let next_run := _calculate_next_run vf (random_ o) t in
  [Logged DEBUG (TaskNextRun (name t) next_run); Slept next_run].

(** The first two events of every run of a task. *)
Definition launch (t : Task World) : list event :=
  [Logged INFO (ExecutingTask (name t)); Called (fname (callback t))].

(** One step of the loop of [enable_task] and [disable_task], on the heap. *)
Definition with_enabled (b : bool) (name_ : string) (h : list (Task World)) (task : addr)
    : list (Task World) :=
  if String.eqb (name (h !!! task)) name_ then alter (set_enabled b) task h else h.

(** The loop shared by [enable_task] and [disable_task]. *)
Definition set_enabled_loop (b : bool) (name_ : string) (msg : log_message)
    (ts : list addr) : M World (Orchestrator World) unit :=
  for_each ts (fun task =>
    let! t := deref task in
    if String.eqb (name t) name_
    then update task (set_enabled b) ;;; log INFO msg
    else ret tt).

(** The entry of [get_status] for a task. *)
Definition status_of (t : Task World) : task_status :=
  mkTaskStatus (name t) (enabled t) (interval_seconds t) (last_run t) (run_count t).

End SchedulerNotions.

(** ** Reading the registry *)

Section SchedulerInvariant.

Context {World : Type}.

(** Every reference the registry or a loop holds is to an object that was
    created, as it is for Python references. *)
Definition well_formed (o : Orchestrator World) : Prop :=
  Forall (fun a => a < length (heap o)) (tasks o)
  /\ Forall (fun a => a < length (heap o)) (loops o).

(** An entry of [get_status] with the flag of the tasks of one name set. *)
Definition with_status_enabled (b : bool) (name_ : string) (s : task_status) : task_status :=
  if String.eqb (status_name s) name_
  then mkTaskStatus (status_name s) b (status_interval s) (status_last_run s)
                    (status_run_count s)
  else s.

(** [last_run] after the runs of the given ticks. *)
Definition last_tick (os : list oracle) (before : option Z) : option Z :=
  fold_left (fun _ o => Some (now_ o)) os before.

(** The world after [n] runs of an action that returns. *)
Definition ran_times (n : nat) (action : Callable World unit) (w : World) : World :=
  Nat.iter n (fun w' => fst (body action tt w')) w.

End SchedulerInvariant.

(** ** The runner of main.py: what it registers and the mention check *)

Section Runner.

Context {World : Type}.

(** One entry of [config["orchestrator"]["tasks"]], as [json.load] gives it
    for a configuration with a string, a value read for its truth and an
    integer under the three keys. *)
Record task_config := mkTaskConfig {
  config_name : string;
  config_enabled : pyval;
  config_interval_seconds : Z
}.

(** [config["triggers"]] *)
Record triggers_config := mkTriggersConfig {
  enable_keyword_triggers : pyval;
  keywords : list string;
  enable_mention_triggers : pyval
}.

(** The bound methods of [AgentRunner] that are handed over as callbacks
    and whose bodies talk to the model and the platforms. *)
Record AgentRunner := mkAgentRunner {
  auto_post_task : Callable World unit;
  check_mentions_task : Callable World unit;
  save_memory_task : Callable World unit;
  handle_keyword_trigger : Callable World (string * context)
}.

(** [_handle_mention_trigger] awaits [_handle_keyword_trigger] on the same
    arguments. *)
Definition _handle_mention_trigger (r : AgentRunner) : Callable World (string * context) :=
  mkCallable (string * context) "_handle_mention_trigger" true
             (fun args w => body (handle_keyword_trigger r) args w).

Definition _setup_orchestrator (r : AgentRunner) (tasks_config : list task_config)
    : M World (Orchestrator World) unit :=
  for_each tasks_config (fun task_config =>
    if negb (truthy (config_enabled task_config)) then ret tt
    else
      let task_name := config_name task_config in
      if String.eqb task_name "auto_post" then
        add_task "auto_post" (auto_post_task r)
                 (config_interval_seconds task_config) true
      else if String.eqb task_name "check_mentions" then
        add_task "check_mentions" (check_mentions_task r)
                 (config_interval_seconds task_config) true
      else if String.eqb task_name "save_memory" then
        add_task "save_memory" (save_memory_task r)
                 (config_interval_seconds task_config) true
      else ret tt).

Definition _setup_triggers (r : AgentRunner) (config : triggers_config)
    : M World (TriggerManager World) unit :=
  (if truthy (enable_keyword_triggers config)
   then add_keyword_trigger (keywords config) (handle_keyword_trigger r) false
   else ret tt) ;;;
  (if truthy (enable_mention_triggers config)
   then add_mention_trigger (_handle_mention_trigger r)
   else ret tt).

(** The task names [_setup_orchestrator] knows. *)
Definition known_task (name_ : string) : bool :=
  String.eqb name_ "auto_post" || String.eqb name_ "check_mentions"
  || String.eqb name_ "save_memory".

(** The configured tasks that get registered. *)
Definition selected (c : task_config) : bool :=
  truthy (config_enabled c) && known_task (config_name c).

(** The method registered under a known name. *)
Definition task_method (r : AgentRunner) (name_ : string) : Callable World unit :=
  if String.eqb name_ "auto_post" then auto_post_task r
  else if String.eqb name_ "check_mentions" then check_mentions_task r
  else save_memory_task r.

Definition configured_task (r : AgentRunner) (c : task_config) : Task World :=
  mkTask (config_name c) (task_method r (config_name c)) (config_interval_seconds c)
         true None 0.

(** A mention as a platform returns it; only its text is read here. *)
Record mention := mkMention { text : string }.

(** A platform adapter, for its [get_mentions]: it reads the platform and
    gives the mentions or raises. *)
Record Adapter := mkAdapter {
  get_mentions : World -> World * (list mention + exn)
}.

(** [await adapter.get_mentions()] *)
Definition fetch_mentions {Obj} (adapter : Adapter) : M World Obj (list mention) :=
  fun st =>
    match get_mentions adapter (world st) with
    | (w, inl mentions) => (mkState (self st) w (trace st), Returned mentions)
    | (w, inr e) => (mkState (self st) w (trace st), Raised e)
    end.

(** The context [_check_mentions_task] builds for a mention. *)
Definition mention_context (platform_name : string) : context :=
  {[ "platform" := PyStr platform_name; "is_mention" := PyBool true ]}.

(** The body of the loop of [_check_mentions_task] over the platforms: the
    [try] around the mentions of one platform. *)
Definition check_platform (item : string * Adapter)
    : M World (TriggerManager World) unit :=
  let platform_name := fst item in
  let adapter := snd item in
  try_except
    (let! mentions := await (fetch_mentions adapter) in
     for_each mentions (fun mention =>
       let context := mention_context platform_name in
       let! _ := await (check_triggers (text mention) context) in
       ret tt))
    (fun e => ret tt).

(** The loop over the mentions of one platform, inside the [try]. *)
Definition dispatch_mentions (platform_name : string) (mentions : list mention)
    : M World (TriggerManager World) unit :=
  for_each mentions (fun mention =>
    let context := mention_context platform_name in
    let! _ := await (check_triggers (text mention) context) in
    ret tt).

(** [_check_mentions_task], on the trigger manager of the runner;
    [platforms] are the items of [self.platforms] in their order.  What it
    logs goes to the logger of [main], not to the trace. *)
Definition _check_mentions_task (platforms : list (string * Adapter))
    : M World (TriggerManager World) unit :=
  for_each platforms check_platform.

(** A callable that raises nothing but instances of [Exception]. *)
Definition tame {Args} (c : Callable World Args) : Prop :=
  forall args w e, snd (body c args w) = Some e -> derives_Exception e = true.

Definition tame_adapter (a : Adapter) : Prop :=
  forall w e, snd (get_mentions a w) = inr e -> derives_Exception e = true.

(** A step of the dispatcher that leaves the instance [s0] as it is and
    lets nothing out but [Exception]s. *)
Definition calm {B} (s0 : TriggerManager World)
    (r : state World (TriggerManager World) * outcome B) : Prop :=
  self (fst r) = s0 /\ forall e, snd r = Raised e -> derives_Exception e = true.

End Runner.

Arguments AgentRunner World : clear implicits.
Arguments Adapter World : clear implicits.

(** A computation on an object, as an action a scheduler can call: the
    scheduler's world is the object's state. *)
Definition as_action {World Obj} (fname_ : string) (m : M World Obj unit)
    : Callable (state World Obj) unit :=
  mkCallable unit fname_ true
    (fun _ s =>
       match m s with
       | (s', Returned _) => (s', None)
       | (s', Raised e) => (s', Some e)
       end).

(** ** MemoryStore (memory.py)

    The store the runner's handlers write the conversations to.  Its lines
    go to the logger of [memory] and are not part of the trace; [save] and
    [load], which only move [conversations] to and from a JSON file, are
    left out. *)

(** A message dictionary; [timestamp] is the time read, kept instead of its
    ISO rendering. *)
Record Message := mkMessage {
  role : string;
  content : string;
  timestamp : Z;
  metadata : context
}.

Record MemoryStore := mkMemoryStore {
  max_history : Z;
  conversations : gmap string (list Message)
}.

(** [l[start:]] for an integer [start]: a negative start counts from the
    end, and both are clipped to the list. *)
Definition slice_from {A} (start : Z) (l : list A) : list A :=
  let len := Z.of_nat (length l) in
  let first := if (start <? 0)%Z then Z.max (len + start) 0 else Z.min start len in
  drop (Z.to_nat first) l.

(** [now] is what [datetime.now()] returns; [metadata or {}] is the
    dictionary given, or an empty one for [None]. *)
Definition add_message (conversation_id role_ content_ : string)
    (metadata_ : option context) (now : Z) (s : MemoryStore) : MemoryStore :=
  let conversations1 :=
    match conversations s !! conversation_id with
    | None => <[conversation_id := []]> (conversations s)
    | Some _ => conversations s
    end in
  let message := mkMessage role_ content_ now (default ∅ metadata_) in
  let conversations2 := alter (fun l => l ++ [message]) conversation_id conversations1 in
  let history := default [] (conversations2 !! conversation_id) in
  let conversations3 :=
    if (max_history s <? Z.of_nat (length history))%Z
    then <[conversation_id := slice_from (- max_history s) history]> conversations2
    else conversations2 in
  mkMemoryStore (max_history s) conversations3.

(** An item of the list [get_history] returns: the stored dictionary, or
    its role and content alone. *)
Inductive history_item :=
| stored (msg : Message)
| for_model (role_ content_ : string).

(** [last_n] is [None] or an integer; [if last_n:] takes 0 like [None]. *)
Definition get_history (conversation_id : string) (format_for_model : bool)
    (last_n : option Z) (s : MemoryStore) : list history_item :=
  match conversations s !! conversation_id with
  | None => []
  | Some history =>
      let history' :=
        match last_n with
        | Some n => if (n =? 0)%Z then history else slice_from (- n) history
        | None => history
        end in
      if format_for_model
      then map (fun msg => for_model (role msg) (content msg)) history'
      else map stored history'
  end.

Definition clear_conversation (conversation_id : string) (s : MemoryStore) : MemoryStore :=
  match conversations s !! conversation_id with
  | Some _ => mkMemoryStore (max_history s) (delete conversation_id (conversations s))
  | None => s
  end.

Definition clear_all (s : MemoryStore) : MemoryStore :=
  mkMemoryStore (max_history s) ∅.

Record stats := mkStats {
  total_conversations : nat;
  total_messages : nat;
  conversation_sizes : gmap string nat
}.

(** [sum(len(conv) for conv in conversations.values())] *)
Definition count_messages (m : gmap string (list Message)) : nat :=
  map_fold (fun _ conv total => total + length conv) 0 m.

Definition get_stats (s : MemoryStore) : stats :=
  mkStats (size (conversations s))
          (count_messages (conversations s))
          (length <$> conversations s).

(** The history of a conversation, empty when there is none. *)
Definition history_of (conversation_id : string) (s : MemoryStore) : list Message :=
  default [] (conversations s !! conversation_id).

(** What [add_message] leaves under the conversation it writes: the
    history, cut when it is longer than the limit. *)
Definition trimmed (limit : Z) (h : list Message) : list Message :=
  if (limit <? Z.of_nat (length h))%Z then slice_from (- limit) h else h.

(** A store with room for three messages per conversation. *)
Definition small_store : MemoryStore := mkMemoryStore 3 ∅.

(** ** Objects used in the examples: the world is a counter of effects *)

Definition boom : exn := mkExn true "boom".

Definition post : Callable nat unit :=
  mkCallable unit "post" true (fun _ w => (S w, None)).

Definition failing_post : Callable nat unit :=
  mkCallable unit "failing_post" true (fun _ w => (w, Some boom)).

Definition reply : Callable nat (string * context) :=
  mkCallable (string * context) "reply" false (fun _ w => (S w, None)).

Definition failing_reply : Callable nat (string * context) :=
  mkCallable (string * context) "failing_reply" false (fun _ w => (w, Some boom)).

Definition greet : Callable nat (string * context) :=
  mkCallable (string * context) "greet" true (fun _ w => (S w, None)).

(** A scheduler with the default variance factor and nothing registered. *)
Definition fresh : state nat (Orchestrator nat) := init (1 # 5) 0%nat.

(** [m] run from [st], for its final state. *)
Definition after {World Obj A} (st : state World Obj) (m : M World Obj A)
    : state World Obj := fst (m st).

(** What an iteration reads: the time and the draw. *)
Definition tick (now : Z) (u : Q) : oracle := mkOracle now u.

(** One task ["x"] registered and the scheduler started. *)
Definition failing_started : state nat (Orchestrator nat) :=
  after (after fresh (add_task "x" failing_post 5 true)) start.

Definition posting_started : state nat (Orchestrator nat) :=
  after (after fresh (add_task "x" post 5 true)) start.

(** The same, with ["x"] disabled after the start. *)
Definition paused_started : state nat (Orchestrator nat) :=
  after posting_started (disable_task "x").

(** Contexts and trigger managers of the examples. *)
Definition no_context : context := ∅.

Definition mentioned : context := {[ "is_mention" := PyBool true ]}.

Definition not_mentioned : context := {[ "is_mention" := PyBool false ]}.

Definition gm_rules : state nat (TriggerManager nat) :=
  after (init_triggers 0) (add_keyword_trigger ["gm"; "wagmi"] reply false).

Definition failing_then_greet : state nat (TriggerManager nat) :=
  after (after (init_triggers 0) (add_keyword_trigger ["gm"] failing_reply false))
        (add_keyword_trigger ["gm"] greet false).

Definition mention_rule : state nat (TriggerManager nat) :=
  after (init_triggers 0) (add_mention_trigger reply).

Definition three_keywords : state nat (TriggerManager nat) :=
  after (init_triggers 0) (add_keyword_trigger ["gm"; "fren"; "wagmi"] reply false).

(** More objects for the examples. *)
Definition cancelled : exn := mkExn false "CancelledError".

Definition cancelling_post : Callable nat unit :=
  mkCallable unit "cancelling_post" true (fun _ w => (w, Some cancelled)).

Definition cancelling_started : state nat (Orchestrator nat) :=
  after (after fresh (add_task "x" cancelling_post 5 true)) start.

(** Two tasks registered, the scheduler not started. *)
Definition two_tasks : state nat (Orchestrator nat) :=
  after (after fresh (add_task "x" post 10 true)) (add_task "y" post 20 false).

Definition shouting : Callable nat (string * context) :=
  mkCallable (string * context) "shouting" true (fun _ w => (w + 10, None)).

(** A keyword rule and a mention rule, registered in this order. *)
Definition both_kinds : state nat (TriggerManager nat) :=
  after (after (init_triggers 0) (add_keyword_trigger ["gm"; "wagmi"] reply false))
        (add_mention_trigger shouting).

(** A runner whose methods only count, and a configuration for it. *)
Definition counting_runner : AgentRunner nat :=
  mkAgentRunner
    (mkCallable unit "_auto_post_task" true (fun _ w => (S w, None)))
    (mkCallable unit "_check_mentions_task" true (fun _ w => (S w, None)))
    (mkCallable unit "_save_memory_task" true (fun _ w => (S w, None)))
    (mkCallable (string * context) "_handle_keyword_trigger" true (fun _ w => (S w, None))).

Definition tasks_config : list task_config :=
  [mkTaskConfig "auto_post" (PyBool true) 3600;
   mkTaskConfig "tweet_storm" (PyBool true) 60;
   mkTaskConfig "save_memory" (PyBool false) 600;
   mkTaskConfig "check_mentions" (PyBool true) 300].

Definition both_triggers : triggers_config :=
  mkTriggersConfig (PyBool true) ["GM"; "wagmi"; "ser"] (PyBool true).

(** A platform with two new mentions at every call. *)
Definition two_mentions : Adapter nat :=
  mkAdapter (fun w => (w, inl [mkMention "gm fren"; mkMention "wagmi"])).

(** A platform with three mentions, and a manager that replies to ["fren"]
    and fails on ["wagmi"]. *)
Definition three_mentions : Adapter nat :=
  mkAdapter (fun w => (w, inl [mkMention "hello fren"; mkMention "wagmi";
                               mkMention "fren again"])).

Definition wagmi_fails : state nat (TriggerManager nat) :=
  after (after (init_triggers 0) (add_keyword_trigger ["fren"] reply false))
        (add_keyword_trigger ["wagmi"] failing_reply false).

(** A scheduler whose world is the trigger manager and what lies behind
    it, with the mention check as its only task. *)
Definition mention_checker
    : state (state nat (TriggerManager nat))
            (Orchestrator (state nat (TriggerManager nat))) :=
  after (init (1 # 5) failing_then_greet)
        (add_task "check_mentions"
           (as_action "_check_mentions_task"
              (_check_mentions_task [("twitter", two_mentions)]))
           300 true).

(** ** The jittered interval *)

Section Jitter.

Open Scope Q_scope.

Lemma max_lower (a b : Q) : a <= max_ a b.
Proof.
  unfold max_. destruct (Qle_bool b a) eqn:E.
  - apply Qle_refl.
  - destruct (Qlt_le_dec a b) as [H | H].
    + apply Qlt_le_weak, H.
    + apply Qle_bool_iff in H. congruence.
Qed.

Lemma max_cases (a b : Q) : (b <= a /\ max_ a b = a) \/ (a < b /\ max_ a b = b).
Proof.
  unfold max_. destruct (Qle_bool b a) eqn:E.
  - left. split; [now apply Qle_bool_iff | reflexivity].
  - right. split; [| reflexivity].
    destruct (Qlt_le_dec a b) as [H | H]; [exact H |].
    apply Qle_bool_iff in H. congruence.
Qed.

Lemma uniform_range (u a b : Q) : 0 <= u <= 1 -> a <= b -> a <= uniform u a b <= b.
Proof.
  intros [H0 H1] Hab. unfold uniform. split; nra.
Qed.

End Jitter.

Section JitterClaims.

Context {World : Type}.

Open Scope Q_scope.

(** C5.  The next sleep duration is [base_interval] plus the adjustment
    [uniform(-variance, variance)] with [variance = base_interval *
    variance_factor], clamped below at one second.  For every draw the
    adjustment lies between [-variance] and [variance], the result is never
    below 1, it is the unclamped sum whenever that sum is at least 1, and for
    [base_interval = 100] with [variance_factor = 0.2] it lies in
    [[80, 120]]. *)
Theorem calculate_next_run_jitter (vf u : Q) (task : Task World) :
  0 <= u <= 1 ->
  let base_interval := inject_Z (interval_seconds task) in
  let variance := base_interval * vf in
  let adjustment := uniform u (- variance) variance in
  _calculate_next_run vf u task = max_ 1 (base_interval + adjustment)
  /\ (0 <= variance -> - variance <= adjustment <= variance)
  /\ (variance <= 0 -> variance <= adjustment <= - variance)
  /\ 1 <= _calculate_next_run vf u task
  /\ (1 <= base_interval + adjustment ->
      _calculate_next_run vf u task == base_interval + adjustment)
  /\ (base_interval + adjustment <= 1 -> _calculate_next_run vf u task = 1)
  /\ (interval_seconds task = 100%Z -> vf == 1 # 5 ->
      80 <= _calculate_next_run vf u task <= 120).
Proof.
  intros Hu base_interval variance adjustment.
  assert (Hdef : _calculate_next_run vf u task = max_ 1 (base_interval + adjustment))
    by reflexivity.
  split; [exact Hdef |].
  split; [intros Hv; apply uniform_range; [exact Hu | lra] |].
  split.
  { intros Hv. unfold adjustment, uniform. destruct Hu as [H0 H1]. split; nra. }
  split; [rewrite Hdef; apply max_lower |].
  split.
  { intros H. rewrite Hdef.
    destruct (max_cases 1 (base_interval + adjustment)) as [[Hle ->] | [_ ->]];
      [lra | reflexivity]. }
  split.
  { intros H. rewrite Hdef. unfold max_.
    apply Qle_bool_iff in H. now rewrite H. }
  intros Hi Hvf. rewrite Hdef.
  assert (Hb : base_interval == 100) by (unfold base_interval; rewrite Hi; reflexivity).
  assert (Hv : variance == 20) by (unfold variance; rewrite Hb, Hvf; reflexivity).
  assert (Ha : -20 <= adjustment <= 20).
  { unfold adjustment, uniform. destruct Hu as [H0 H1]. split; nra. }
  destruct (max_cases 1 (base_interval + adjustment)) as [[Hle ->] | [_ ->]]; lra.
Qed.

End JitterClaims.

Lemma calculate_next_run_jitter_witness :
  (0 <= 1 # 4 <= 1)%Q
  /\ (80 <= _calculate_next_run (1 # 5) (1 # 4) (mkTask "x" post 100 true None 0) <= 120)%Q.
Proof.
  assert (Hu : (0 <= 1 # 4 <= 1)%Q) by (split; discriminate).
  split; [exact Hu |].
  apply (calculate_next_run_jitter (1 # 5) (1 # 4) (mkTask "x" post 100 true None 0) Hu);
    reflexivity.
Defined.

(** ** The scheduler *)

Section SchedulerFacts.

Context {World : Type}.

Implicit Types (st : state World (Orchestrator World)) (t : Task World).
Implicit Types (a : addr) (o : oracle) (os : list oracle).

Lemma alter_twice_lookup (f g : Task World -> Task World) (h : list (Task World)) a t :
  h !! a = Some t -> alter f a (alter g a h) !! a = Some (f (g t)).
Proof.
  intros H. rewrite !list_lookup_alter_eq, H. reflexivity.
Qed.

Lemma alter_twice_insert (f g : Task World -> Task World) (h : list (Task World)) a t :
  h !! a = Some t -> alter f a (alter g a h) = <[a := f (g t)]> h.
Proof.
  intros H. apply list_eq. intros i.
  destruct (decide (a = i)) as [<- | Hne].
  - rewrite (alter_twice_lookup f g h a t H).
    symmetry. apply list_lookup_insert_eq. eapply lookup_lt_Some, H.
  - rewrite !list_lookup_alter_ne by exact Hne.
    symmetry. apply list_lookup_insert_ne, Hne.
Qed.

Ltac run_monad :=
  unfold _run_task, _task_loop_body, try_except, bind, deref, gets, log, sleep, emit,
    invoke, await, call, update, modify, ret; simpl.

(** A run whose action returns: the task is stamped and counted. *)
Lemma run_task_returns st now a t w' :
  heap (self st) !! a = Some t ->
  body (callback t) tt (world st) = (w', None) ->
  _run_task now a st =
    (mkState (set_heap (<[a := completed now t]> (heap (self st))) (self st)) w'
       (trace st ++ [Logged INFO (ExecutingTask (name t)); Called (fname (callback t));
                     Logged INFO (TaskCompleted (name t) (run_count t + 1))]),
     Returned tt).
Proof.
  intros Ha Hb. run_monad.
  rewrite (list_lookup_total_correct _ _ _ Ha).
  assert (Hl := alter_twice_lookup incr_run_count (set_last_run now) _ _ _ Ha).
  assert (Hi := alter_twice_insert incr_run_count (set_last_run now) _ _ _ Ha).
  destruct (is_coroutine (callback t)); simpl; rewrite Hb; simpl;
    rewrite (list_lookup_total_correct _ _ _ Hl), Hi; simpl;
    rewrite <- !app_assoc; reflexivity.
Qed.

(** A run whose action raises an [Exception]: caught and logged, the task
    object is not written. *)
Lemma run_task_caught st now a t w' e :
  heap (self st) !! a = Some t ->
  body (callback t) tt (world st) = (w', Some e) ->
  derives_Exception e = true ->
  _run_task now a st =
    (mkState (self st) w'
       (trace st ++ [Logged INFO (ExecutingTask (name t)); Called (fname (callback t));
                     Logged ERROR (TaskFailed (name t) e)]),
     Returned tt).
Proof.
  intros Ha Hb He. run_monad.
  rewrite (list_lookup_total_correct _ _ _ Ha).
  destruct (is_coroutine (callback t)); simpl; rewrite Hb; simpl; rewrite He; simpl;
    rewrite (list_lookup_total_correct _ _ _ Ha), <- !app_assoc; reflexivity.
Qed.

(** What is not an [Exception] goes through [_run_task]. *)
Lemma run_task_propagates st now a t w' e :
  heap (self st) !! a = Some t ->
  body (callback t) tt (world st) = (w', Some e) ->
  derives_Exception e = false ->
  _run_task now a st =
    (mkState (self st) w'
       (trace st ++ [Logged INFO (ExecutingTask (name t)); Called (fname (callback t))]),
     Raised e).
Proof.
  intros Ha Hb He. run_monad.
  rewrite (list_lookup_total_correct _ _ _ Ha).
  destruct (is_coroutine (callback t)); simpl; rewrite Hb; simpl; rewrite He; simpl;
    rewrite <- !app_assoc; reflexivity.
Qed.

(** The end of an iteration: compute the jittered interval, log it, sleep. *)
Lemma loop_unfold st o os a :
  running (self st) = true ->
  _task_loop (o :: os) a st =
  match _task_loop_body o a st with
  | (st', Returned _) => _task_loop os a st'
  | (st', Raised e) => (st', Raised e)
  end.
Proof.
  intros Hr. simpl. unfold bind at 1. unfold gets at 1. rewrite Hr.
  unfold bind at 1. reflexivity.
Qed.

Lemma loop_body_disabled st o a t :
  heap (self st) !! a = Some t ->
  enabled t = false ->
  _task_loop_body o a st =
    (mkState (self st) (world st) (trace st ++ nap (variance_factor (self st)) o t),
     Returned tt).
Proof.
  intros Ha He. run_monad.
  rewrite (list_lookup_total_correct _ _ _ Ha), He. simpl.
  rewrite (list_lookup_total_correct _ _ _ Ha), <- !app_assoc. reflexivity.
Qed.

Lemma loop_body_enabled st o a t st' :
  heap (self st) !! a = Some t ->
  enabled t = true ->
  _run_task (now_ o) a st = (st', Returned tt) ->
  _task_loop_body o a st =
    (mkState (self st') (world st')
       (trace st' ++ nap (variance_factor (self st')) o (heap (self st') !!! a)),
     Returned tt).
Proof.
  intros Ha He Hrun. unfold _task_loop_body.
  unfold bind at 1. unfold bind at 1. unfold deref at 1, gets at 1.
  rewrite (list_lookup_total_correct _ _ _ Ha), He.
  unfold await at 1. rewrite Hrun.
  run_monad. rewrite <- !app_assoc. reflexivity.
Qed.

End SchedulerFacts.

Section SchedulerClaims.

Context {World : Type}.

Implicit Types (st : state World (Orchestrator World)) (t : Task World).
Implicit Types (a : addr) (o : oracle) (os : list oracle).

(** C1, amended.  When the action of an enabled task raises an [Exception]
    during a tick, [_run_task] catches it and logs the failure, the loop
    goes on to its sleep and to its next iteration, and the task object is
    not written: [run_count] and [last_run] keep their values.  Only a run
    whose action returns adds one to [run_count] and sets [last_run]. *)
Theorem failed_run_logged_not_counted st o os a t :
  running (self st) = true ->
  heap (self st) !! a = Some t ->
  enabled t = true ->
  let vf := variance_factor (self st) in
  (forall e w',
      body (callback t) tt (world st) = (w', Some e) ->
      derives_Exception e = true ->
      _task_loop (o :: os) a st =
      _task_loop os a
        (mkState (self st) w'
           (trace st ++
            [Logged INFO (ExecutingTask (name t)); Called (fname (callback t));
             Logged ERROR (TaskFailed (name t) e)] ++ nap vf o t)))
  /\ (forall w',
      body (callback t) tt (world st) = (w', None) ->
      _task_loop (o :: os) a st =
      _task_loop os a
        (mkState (set_heap (<[a := completed (now_ o) t]> (heap (self st))) (self st)) w'
           (trace st ++
            [Logged INFO (ExecutingTask (name t)); Called (fname (callback t));
             Logged INFO (TaskCompleted (name t) (run_count t + 1))] ++ nap vf o t))).
Proof.
  intros Hr Ha He vf. split.
  - intros e w' Hb Hex.
    rewrite (loop_unfold _ _ _ _ Hr).
    rewrite (loop_body_enabled _ _ _ _ _ Ha He (run_task_caught _ (now_ o) _ _ _ _ Ha Hb Hex)).
    simpl. rewrite (list_lookup_total_correct _ _ _ Ha), <- app_assoc. reflexivity.
  - intros w' Hb.
    rewrite (loop_unfold _ _ _ _ Hr).
    rewrite (loop_body_enabled _ _ _ _ _ Ha He (run_task_returns _ (now_ o) _ _ _ Ha Hb)).
    simpl.
    assert (Hl : <[a := completed (now_ o) t]> (heap (self st)) !! a
                 = Some (completed (now_ o) t))
      by (apply list_lookup_insert_eq; eapply lookup_lt_Some, Ha).
    rewrite (list_lookup_total_correct _ _ _ Hl), <- app_assoc. reflexivity.
Qed.

End SchedulerClaims.

(** C1 as the specification states it fails: the action of ["x"] raises, the
    tick completes, and [run_count] is still 0 and [last_run] still unset. *)
Lemma failed_run_counted_counterexample :
  let st := failing_started in
  let r := _task_loop [tick 100 (1 # 2)] 0 st in
  snd (body failing_post tt (world st)) = Some boom
  /\ snd r = Returned Suspended
  /\ run_count (heap (self st) !!! 0) = 0%Z
  /\ run_count (heap (self (fst r)) !!! 0) <> (0 + 1)%Z
  /\ last_run (heap (self (fst r)) !!! 0) <> Some 100%Z.
Proof.
  vm_compute. repeat split; discriminate.
Qed.

Lemma failed_run_logged_not_counted_witness :
  let st := failing_started in
  let t := mkTask "x" failing_post 5 true None 0 in
  running (self st) = true
  /\ heap (self st) !! 0 = Some t
  /\ enabled t = true
  /\ _task_loop [tick 100 (1 # 2)] 0 st =
     (mkState (self st) 0
        (trace st ++
         [Logged INFO (ExecutingTask "x"); Called "failing_post";
          Logged ERROR (TaskFailed "x" boom)] ++ nap (1 # 5) (tick 100 (1 # 2)) t),
      Returned Suspended).
Proof.
  intros st t.
  assert (H1 : running (self st) = true) by reflexivity.
  assert (H2 : heap (self st) !! 0 = Some t) by reflexivity.
  assert (H3 : enabled t = true) by reflexivity.
  split; [exact H1 |]. split; [exact H2 |]. split; [exact H3 |].
  exact (proj1 (failed_run_logged_not_counted st (tick 100 (1 # 2)) [] 0 t H1 H2 H3)
           boom 0%nat eq_refl eq_refl).
Defined.

(** ** Registration *)

Section RegistrationFacts.

Context {World : Type}.

Implicit Types (st : state World (Orchestrator World)) (t : Task World).

(** [add_task] has no test on its arguments: it always allocates, appends
    and logs. *)
Lemma add_task_registers st nm cb iv en :
  add_task nm cb iv en st =
    (mkState
       (mkOrchestrator (variance_factor (self st))
          (tasks (self st) ++ [length (heap (self st))]) (running (self st))
          (heap (self st) ++ [mkTask nm cb iv en None 0]) (loops (self st)))
       (world st) (trace st ++ [Logged INFO (AddedTask nm iv)]),
     Returned tt).
Proof. reflexivity. Qed.

Lemma new_task_lookup (h : list (Task World)) t : (h ++ [t]) !! length h = Some t.
Proof.
  rewrite lookup_app_r by lia. now rewrite Nat.sub_diag.
Qed.

Lemma add_task_status_last st nm cb iv en :
  last (status_tasks (get_status (self (fst (add_task nm cb iv en st)))))
  = Some (mkTaskStatus nm en iv None 0).
Proof.
  rewrite add_task_registers. unfold get_status. simpl.
  rewrite map_app. simpl. rewrite last_snoc.
  now rewrite (list_lookup_total_correct _ _ _ (new_task_lookup (heap (self st)) _)).
Qed.

End RegistrationFacts.

Section RegistrationClaims.

Context {World : Type}.

Implicit Types (st : state World (Orchestrator World)) (t : Task World).

(** C3, amended.  [add_task] with a name that is already registered signals
    nothing: it returns normally, a second task with that name is registered
    after the existing ones, and every task object that existed, the one of
    that name included, is left as it was (its interval keeps its value). *)
Theorem add_task_duplicate_name_registers_again st nm cb iv en :
  (exists a t, a ∈ tasks (self st) /\ heap (self st) !! a = Some t /\ name t = nm) ->
  exists st',
    add_task nm cb iv en st = (st', Returned tt)
    /\ tasks (self st') = tasks (self st) ++ [length (heap (self st))]
    /\ heap (self st') !! length (heap (self st)) = Some (mkTask nm cb iv en None 0)
    /\ last (status_tasks (get_status (self st'))) = Some (mkTaskStatus nm en iv None 0)
    /\ (forall a t, heap (self st) !! a = Some t -> heap (self st') !! a = Some t).
Proof.
  intros _. eexists. split; [apply add_task_registers |]. simpl.
  split; [reflexivity |].
  split; [apply new_task_lookup |].
  split; [exact (add_task_status_last st nm cb iv en) |].
  intros a t Ha. now apply lookup_app_l_Some.
Qed.

(** C4, amended.  [add_task] with an interval that is zero or negative
    signals nothing: it returns normally and the task is registered with
    that interval, as [get_status] shows. *)
Theorem add_task_nonpositive_interval_registers st nm cb iv en :
  (iv <= 0)%Z ->
  exists st',
    add_task nm cb iv en st = (st', Returned tt)
    /\ tasks (self st') = tasks (self st) ++ [length (heap (self st))]
    /\ heap (self st') !! length (heap (self st)) = Some (mkTask nm cb iv en None 0)
    /\ last (status_tasks (get_status (self st'))) = Some (mkTaskStatus nm en iv None 0).
Proof.
  intros _. eexists. split; [apply add_task_registers |]. simpl.
  split; [reflexivity |].
  split; [apply new_task_lookup |].
  exact (add_task_status_last st nm cb iv en).
Qed.

End RegistrationClaims.

(** C3 as the specification states it fails: the second [add_task("x", ...)]
    returns normally and ["x"] is now registered twice, with intervals 10
    and 20. *)
Lemma duplicate_name_counterexample :
  let st := after fresh (add_task "x" post 10 true) in
  let r := add_task "x" post 20 true st in
  map status_name (status_tasks (get_status (self st))) = ["x"]
  /\ snd r = Returned tt
  /\ (forall e, snd r <> Raised e)
  /\ map status_name (status_tasks (get_status (self (fst r)))) = ["x"; "x"]
  /\ map status_interval (status_tasks (get_status (self (fst r)))) = [10%Z; 20%Z].
Proof.
  vm_compute. repeat split; intros; discriminate.
Qed.

Lemma add_task_duplicate_name_registers_again_witness :
  let st := after fresh (add_task "x" post 10 true) in
  (exists a t, a ∈ tasks (self st) /\ heap (self st) !! a = Some t /\ name t = "x")
  /\ exists st',
       add_task "x" post 20 true st = (st', Returned tt)
       /\ tasks (self st') = tasks (self st) ++ [length (heap (self st))]
       /\ heap (self st') !! length (heap (self st)) = Some (mkTask "x" post 20 true None 0)
       /\ last (status_tasks (get_status (self st')))
          = Some (mkTaskStatus "x" true 20 None 0)
       /\ (forall a t, heap (self st) !! a = Some t -> heap (self st') !! a = Some t).
Proof.
  intros st.
  assert (H : exists a t, a ∈ tasks (self st) /\ heap (self st) !! a = Some t /\ name t = "x").
  { exists 0%nat, (mkTask "x" post 10 true None 0).
    split; [apply list_elem_of_here |]. split; reflexivity. }
  split; [exact H |].
  exact (add_task_duplicate_name_registers_again st "x" post 20 true H).
Defined.

(** C4 as the specification states it fails: [add_task("x", ..., 0)] and
    [add_task("y", ..., -5)] return normally and both tasks are registered. *)
Lemma nonpositive_interval_counterexample :
  let r0 := add_task "x" post 0 true fresh in
  let r5 := add_task "y" post (-5) true (fst r0) in
  snd r0 = Returned tt
  /\ snd r5 = Returned tt
  /\ (forall e, snd r0 <> Raised e)
  /\ (forall e, snd r5 <> Raised e)
  /\ status_tasks (get_status (self (fst r5)))
     = [mkTaskStatus "x" true 0 None 0; mkTaskStatus "y" true (-5) None 0].
Proof.
  vm_compute. repeat split; intros; discriminate.
Qed.

Lemma add_task_nonpositive_interval_registers_witness :
  (-5 <= 0)%Z
  /\ exists st',
       add_task "y" post (-5) true fresh = (st', Returned tt)
       /\ tasks (self st') = tasks (self fresh) ++ [length (heap (self fresh))]
       /\ heap (self st') !! length (heap (self fresh))
          = Some (mkTask "y" post (-5) true None 0)
       /\ last (status_tasks (get_status (self st')))
          = Some (mkTaskStatus "y" true (-5) None 0).
Proof.
  assert (H : (-5 <= 0)%Z) by lia.
  split; [exact H |].
  exact (add_task_nonpositive_interval_registers fresh "y" post (-5) true H).
Defined.

(** ** Enabling, disabling and removing while the loops run *)

Section LoopFacts.

Context {World : Type}.

Implicit Types (st : state World (Orchestrator World)) (t : Task World).
Implicit Types (a : addr) (o : oracle) (os : list oracle).

Lemma calls_app (l1 l2 : list event) : calls (l1 ++ l2) = calls l1 + calls l2.
Proof.
  unfold calls. now rewrite List.filter_app, length_app.
Qed.

Lemma calls_logs (msg : log_message) (n : nat) : calls (repeat (Logged INFO msg) n) = 0.
Proof.
  induction n as [| n IH]; [reflexivity | exact IH].
Qed.

Lemma set_enabled_loop_run b nm msg ts :
  forall st, exists n,
    set_enabled_loop b nm msg ts st =
      (mkState (set_heap (foldl (with_enabled b nm) (heap (self st)) ts) (self st))
         (world st) (trace st ++ repeat (Logged INFO msg) n),
       Returned tt).
Proof.
  induction ts as [| x ts IH]; intros st.
  - exists 0. simpl. unfold ret. rewrite app_nil_r. now destruct st as [[] ? ?].
  - unfold set_enabled_loop in *. simpl.
    unfold bind at 1. unfold bind at 1. unfold deref at 1, gets at 1.
    destruct (String.eqb (name (heap (self st) !!! x)) nm) eqn:E.
    + assert (Hw : with_enabled b nm (heap (self st)) x
                   = alter (set_enabled b) x (heap (self st)))
        by (unfold with_enabled; now rewrite E).
      unfold bind at 1, update at 1, modify at 1, log at 1, emit at 1. simpl.
      match goal with
      | |- context [for_each ts _ ?s] => destruct (IH s) as [n Hn]; rewrite Hn
      end.
      exists (S n). simpl. rewrite Hw, <- app_assoc. reflexivity.
    + assert (Hw : with_enabled b nm (heap (self st)) x = heap (self st))
        by (unfold with_enabled; now rewrite E).
      unfold ret at 1.
      destruct (IH st) as [n Hn]. rewrite Hn. exists n.
      simpl. rewrite Hw. reflexivity.
Qed.

Lemma with_enabled_fold_lookup b nm ts :
  forall (h : list (Task World)) a t,
    h !! a = Some t ->
    foldl (with_enabled b nm) h ts !! a
    = Some (if bool_decide (a ∈ ts) && String.eqb (name t) nm then set_enabled b t else t).
Proof.
  induction ts as [| x ts IH]; intros h a t Ha; simpl.
  - exact Ha.
  - destruct (decide (a = x)) as [-> | Hne].
    + rewrite (bool_decide_eq_true_2 (x ∈ x :: ts)) by apply list_elem_of_here. simpl.
      unfold with_enabled at 2. rewrite (list_lookup_total_correct _ _ _ Ha).
      destruct (String.eqb (name t) nm) eqn:E.
      * rewrite (IH _ x (set_enabled b t)) by (rewrite list_lookup_alter_eq, Ha; reflexivity).
        simpl. now destruct (bool_decide (x ∈ ts) && _).
      * rewrite (IH _ x t Ha), E. now rewrite andb_false_r.
    + assert (Hh : with_enabled b nm h x !! a = Some t).
      { unfold with_enabled. destruct (String.eqb _ nm); [| exact Ha].
        now rewrite list_lookup_alter_ne. }
      rewrite (IH _ a t Hh).
      assert (Hd : bool_decide (a ∈ x :: ts) = bool_decide (a ∈ ts)).
      { apply bool_decide_ext. split; [| apply list_elem_of_further].
        intros [? | ?]%elem_of_cons; [contradiction | assumption]. }
      now rewrite Hd.
Qed.

(** [enable_task] writes the flag and logs; it calls nothing. *)
Lemma enable_task_flag_only st a t :
  a ∈ tasks (self st) ->
  heap (self st) !! a = Some t ->
  exists st',
    enable_task (name t) st = (st', Returned tt)
    /\ world st' = world st
    /\ calls (trace st') = calls (trace st)
    /\ running (self st') = running (self st)
    /\ variance_factor (self st') = variance_factor (self st)
    /\ heap (self st') !! a = Some (set_enabled true t).
Proof.
  intros Hin Ha.
  destruct (set_enabled_loop_run true (name t) (EnabledTask (name t)) (tasks (self st)) st)
    as [n Hn].
  eexists. split; [exact Hn |]. simpl.
  split; [reflexivity |].
  split; [now rewrite calls_app, calls_logs, Nat.add_0_r |].
  split; [reflexivity |]. split; [reflexivity |].
  rewrite (with_enabled_fold_lookup _ _ _ _ _ _ Ha).
  now rewrite (bool_decide_eq_true_2 _ Hin), String.eqb_refl.
Qed.

(** An iteration on an enabled task starts by launching its action. *)
Lemma loop_iteration_launches st o a t :
  running (self st) = true ->
  heap (self st) !! a = Some t ->
  enabled t = true ->
  exists tail, trace (fst (_task_loop [o] a st)) = trace st ++ launch t ++ tail.
Proof.
  intros Hr Ha He. rewrite (loop_unfold _ _ _ _ Hr).
  destruct (body (callback t) tt (world st)) as [w' [e |]] eqn:Hb.
  - destruct (derives_Exception e) eqn:Hex.
    + rewrite (loop_body_enabled _ _ _ _ _ Ha He
                 (run_task_caught _ (now_ o) _ _ _ _ Ha Hb Hex)).
      simpl. eexists. rewrite <- !app_assoc. simpl. reflexivity.
    + unfold _task_loop_body.
      unfold bind at 1. unfold bind at 1. unfold deref at 1, gets at 1.
      rewrite (list_lookup_total_correct _ _ _ Ha), He. unfold await at 1.
      rewrite (run_task_propagates _ (now_ o) _ _ _ _ Ha Hb Hex). simpl.
      exists []. reflexivity.
  - rewrite (loop_body_enabled _ _ _ _ _ Ha He (run_task_returns _ (now_ o) _ _ _ Ha Hb)).
    simpl. eexists. rewrite <- !app_assoc. simpl. reflexivity.
Qed.

(** A tick on an enabled task, by what its action does: it returns, and the
    task is stamped and counted; it raises an [Exception], which is logged;
    it raises something else, which ends the loop. *)
Lemma loop_tick_enabled st o os a t :
  running (self st) = true ->
  heap (self st) !! a = Some t ->
  enabled t = true ->
  _task_loop (o :: os) a st =
    match body (callback t) tt (world st) with
    | (w', None) =>
        _task_loop os a
          (mkState (set_heap (<[a := completed (now_ o) t]> (heap (self st))) (self st)) w'
             (trace st ++ launch t
              ++ [Logged INFO (TaskCompleted (name t) (run_count t + 1))]
              ++ nap (variance_factor (self st)) o t))
    | (w', Some e) =>
        if derives_Exception e
        then _task_loop os a
               (mkState (self st) w'
                  (trace st ++ launch t ++ [Logged ERROR (TaskFailed (name t) e)]
                   ++ nap (variance_factor (self st)) o t))
        else (mkState (self st) w' (trace st ++ launch t), Raised e)
    end.
Proof.
  intros Hr Ha He. rewrite (loop_unfold _ _ _ _ Hr).
  assert (Hlt : a < length (heap (self st))) by (eapply lookup_lt_Some, Ha).
  destruct (body (callback t) tt (world st)) as [w' [e |]] eqn:Hb.
  - destruct (derives_Exception e) eqn:Hex.
    + rewrite (loop_body_enabled _ _ _ _ _ Ha He
                 (run_task_caught _ (now_ o) _ _ _ _ Ha Hb Hex)).
      cbn [self world trace]. rewrite (list_lookup_total_correct _ _ _ Ha).
      rewrite <- !app_assoc. reflexivity.
    + unfold _task_loop_body.
      unfold bind at 1. unfold bind at 1. unfold deref at 1, gets at 1.
      rewrite (list_lookup_total_correct _ _ _ Ha), He. unfold await at 1.
      now rewrite (run_task_propagates _ (now_ o) _ _ _ _ Ha Hb Hex).
  - rewrite (loop_body_enabled _ _ _ _ _ Ha He (run_task_returns _ (now_ o) _ _ _ Ha Hb)).
    cbn [self world trace heap set_heap variance_factor].
    rewrite (list_lookup_total_correct _ _ _ (list_lookup_insert_eq _ _ _ Hlt)).
    rewrite <- !app_assoc. reflexivity.
Qed.

(** While its task is disabled a loop only naps, however often it wakes. *)
Lemma loop_disabled_naps os :
  forall st a t,
    running (self st) = true ->
    heap (self st) !! a = Some t ->
    enabled t = false ->
    _task_loop os a st =
      (mkState (self st) (world st)
         (trace st ++ flat_map (fun o => nap (variance_factor (self st)) o t) os),
       Returned Suspended).
Proof.
  induction os as [| o os IH]; intros st a t Hr Ha He.
  - simpl. unfold ret. rewrite app_nil_r. now destruct st.
  - rewrite (loop_unfold _ _ _ _ Hr), (loop_body_disabled _ _ _ _ Ha He).
    cbv beta iota.
    rewrite (IH _ a t); [| exact Hr | exact Ha | exact He].
    simpl. rewrite <- app_assoc. reflexivity.
Qed.

Lemma map_filter_comm {A B} (f : A -> B) (q : B -> bool) (l : list A) :
  map f (List.filter (fun x => q (f x)) l) = List.filter q (map f l).
Proof.
  induction l as [| x l IH]; [reflexivity |]. simpl.
  destruct (q (f x)); simpl; now rewrite IH.
Qed.

Lemma filter_all {A} (p : A -> bool) (l : list A) :
  (forall x, x ∈ l -> p x = true) -> List.filter p l = l.
Proof.
  induction l as [| x l IH]; intros H; [reflexivity |]. simpl.
  rewrite (H x) by apply list_elem_of_here.
  f_equal. apply IH. intros y Hy. apply H. now apply list_elem_of_further.
Qed.

Lemma remove_task_run st nm :
  remove_task nm st =
    (mkState
       (set_tasks
          (List.filter (fun a => negb (String.eqb (name (heap (self st) !!! a)) nm))
                       (tasks (self st)))
          (self st))
       (world st) (trace st ++ [Logged INFO (RemovedTask nm)]),
     Returned tt).
Proof. reflexivity. Qed.

End LoopFacts.

Section LoopClaims.

Context {World : Type}.

Implicit Types (st : state World (Orchestrator World)) (t : Task World).
Implicit Types (a : addr) (o : oracle) (os : list oracle).

(** C8.  While a task is disabled its loop still ticks: at every wake-up it
    tests [running], computes the jittered interval, logs it and sleeps, and
    it neither calls the action nor writes the task, so the world,
    [run_count] and [last_run] stay as they are, for any number of ticks.
    [enable_task] only sets the flag and logs: it calls nothing, so the
    action does not run at once.  The next tick of the same loop runs it:
    the action is called on the world as it is then; when it returns the
    world is the one it leaves, the task is stamped with the time of the
    tick and its [run_count] is one more, and the loop sleeps again; when it
    raises an [Exception] the failure is logged and the loop sleeps again;
    anything else it raises ends the loop. *)
Theorem disabled_task_ticks_without_running st os a t :
  running (self st) = true ->
  heap (self st) !! a = Some t ->
  enabled t = false ->
  a ∈ tasks (self st) ->
  _task_loop os a st =
    (mkState (self st) (world st)
       (trace st ++ flat_map (fun o => nap (variance_factor (self st)) o t) os),
     Returned Suspended)
  /\ exists st',
      enable_task (name t) st = (st', Returned tt)
      /\ world st' = world st
      /\ calls (trace st') = calls (trace st)
      /\ heap (self st') !! a = Some (set_enabled true t)
      /\ (forall o, exists tail,
           trace (fst (_task_loop [o] a st')) = trace st' ++ launch t ++ tail)
      /\ running (self st') = true
      /\ (exists n, trace st' = trace st ++ repeat (Logged INFO (EnabledTask (name t))) n)
      /\ (forall o os',
           _task_loop (o :: os') a st' =
             match body (callback t) tt (world st) with
             | (w', None) =>
                 _task_loop os' a
                   (mkState
                      (set_heap (<[a := completed (now_ o) (set_enabled true t)]>
                                   (heap (self st'))) (self st'))
                      w'
                      (trace st' ++ launch t
                       ++ [Logged INFO (TaskCompleted (name t) (run_count t + 1))]
                       ++ nap (variance_factor (self st)) o t))
             | (w', Some e) =>
                 if derives_Exception e
                 then _task_loop os' a
                        (mkState (self st') w'
                           (trace st' ++ launch t ++ [Logged ERROR (TaskFailed (name t) e)]
                            ++ nap (variance_factor (self st)) o t))
                 else (mkState (self st') w' (trace st' ++ launch t), Raised e)
             end)
      /\ (forall o w',
           body (callback t) tt (world st) = (w', None) ->
           let r := _task_loop [o] a st' in
           snd r = Returned Suspended
           /\ world (fst r) = w'
           /\ heap (self (fst r)) !! a
              = Some (mkTask (name t) (callback t) (interval_seconds t) true
                             (Some (now_ o)) (run_count t + 1))
           /\ calls (trace (fst r)) = calls (trace st) + 1).
Proof.
  intros Hr Ha He Hin. split; [exact (loop_disabled_naps os st a t Hr Ha He) |].
  destruct (set_enabled_loop_run true (name t) (EnabledTask (name t)) (tasks (self st)) st)
    as [n Hn].
  set (st' := mkState
                (set_heap (foldl (with_enabled true (name t)) (heap (self st))
                                 (tasks (self st))) (self st))
                (world st) (trace st ++ repeat (Logged INFO (EnabledTask (name t))) n)).
  assert (Ha' : heap (self st') !! a = Some (set_enabled true t)).
  { cbn [st' self heap set_heap]. rewrite (with_enabled_fold_lookup _ _ _ _ _ _ Ha).
    now rewrite (bool_decide_eq_true_2 _ Hin), String.eqb_refl. }
  assert (Hc : calls (trace st') = calls (trace st))
    by (cbn [st' trace]; now rewrite calls_app, calls_logs, Nat.add_0_r).
  assert (Htick : forall o os',
             _task_loop (o :: os') a st' =
               match body (callback t) tt (world st) with
               | (w', None) =>
                   _task_loop os' a
                     (mkState
                        (set_heap (<[a := completed (now_ o) (set_enabled true t)]>
                                     (heap (self st'))) (self st'))
                        w'
                        (trace st' ++ launch t
                         ++ [Logged INFO (TaskCompleted (name t) (run_count t + 1))]
                         ++ nap (variance_factor (self st)) o t))
               | (w', Some e) =>
                   if derives_Exception e
                   then _task_loop os' a
                          (mkState (self st') w'
                             (trace st' ++ launch t
                              ++ [Logged ERROR (TaskFailed (name t) e)]
                              ++ nap (variance_factor (self st)) o t))
                   else (mkState (self st') w' (trace st' ++ launch t), Raised e)
               end).
  { intros o os'.
    exact (loop_tick_enabled st' o os' a (set_enabled true t) Hr Ha' eq_refl). }
  exists st'. split; [exact Hn |].
  split; [reflexivity |]. split; [exact Hc |]. split; [exact Ha' |].
  split.
  { intros o. exact (loop_iteration_launches st' o a (set_enabled true t) Hr Ha' eq_refl). }
  split; [exact Hr |].
  split; [now exists n |].
  split; [exact Htick |].
  intros o w' Hb r. unfold r. rewrite Htick, Hb.
  cbn [_task_loop]. unfold ret. cbn [fst snd self world trace heap set_heap].
  split; [reflexivity |]. split; [reflexivity |].
  split.
  { apply list_lookup_insert_eq. eapply lookup_lt_Some, Ha'. }
  rewrite calls_app, Hc. f_equal.
Qed.


End LoopClaims.

Lemma disabled_task_ticks_without_running_witness :
  let st := paused_started in
  let t := mkTask "x" post 5 false None 0 in
  let os := [tick 100 (1 # 2); tick 200 (1 # 3)] in
  running (self st) = true
  /\ heap (self st) !! 0 = Some t
  /\ enabled t = false
  /\ 0 ∈ tasks (self st)
  /\ _task_loop os 0 st =
       (mkState (self st) (world st)
          (trace st ++ flat_map (fun o => nap (variance_factor (self st)) o t) os),
        Returned Suspended)
  /\ exists st',
       enable_task "x" st = (st', Returned tt)
       /\ world st' = 0
       /\ world (after st' (_task_loop [tick 300 (1 # 2)] 0)) = 1
       /\ heap (self (after st' (_task_loop [tick 300 (1 # 2)] 0))) !! 0
          = Some (mkTask "x" post 5 true (Some 300%Z) 1).
Proof.
  intros st t os.
  assert (H1 : running (self st) = true) by reflexivity.
  assert (H2 : heap (self st) !! 0 = Some t) by reflexivity.
  assert (H3 : enabled t = false) by reflexivity.
  assert (H4 : 0 ∈ tasks (self st)) by apply list_elem_of_here.
  assert (H5 : body (callback t) tt (world st) = (1, None)) by reflexivity.
  split; [exact H1 |]. split; [exact H2 |]. split; [exact H3 |]. split; [exact H4 |].
  destruct (disabled_task_ticks_without_running st os 0 t H1 H2 H3 H4)
    as (Hnaps & st' & Hen & Hw & _ & _ & _ & _ & _ & _ & Hrun).
  split; [exact Hnaps |].
  exists st'. split; [exact Hen |]. split; [exact Hw |].
  destruct (Hrun (tick 300 (1 # 2)) 1 H5) as (_ & Hw2 & Hh2 & _).
  split; [exact Hw2 | exact Hh2].
Defined.



(** ** The dispatcher *)

Section StringFacts.

Lemma prefix_spec (p s : string) :
  String.prefix p s = true <-> exists post, s = (p ++ post)%string.
Proof.
  revert s. induction p as [| c p IH]; intros s; simpl.
  - split; [intros _; now exists s | intros _; now destruct s].
  - destruct s as [| d s]; simpl.
    + split; [discriminate | intros [post H]; discriminate].
    + destruct (ascii_dec c d) as [-> | Hne].
      * rewrite IH. split; intros [post H]; exists post; [now rewrite H | now inversion H].
      * split; [discriminate | intros [post H]; inversion H; congruence].
Qed.

Lemma contains_cons (c : ascii) (text keyword : string) :
  contains (String c text) keyword
  = String.prefix keyword (String c text) || contains text keyword.
Proof. reflexivity. Qed.

Lemma contains_empty (keyword : string) :
  contains EmptyString keyword = String.prefix keyword EmptyString.
Proof. unfold contains. apply orb_false_r. Qed.

(** [keyword in text] is the substring test. *)
Lemma contains_spec (text keyword : string) :
  contains text keyword = true
  <-> exists pre post, text = (pre ++ keyword ++ post)%string.
Proof.
  induction text as [| c text IH].
  - rewrite contains_empty, prefix_spec. split.
    + intros [post H]. now exists EmptyString, post.
    + intros (pre & post & H). destruct pre; [now exists post | discriminate].
  - rewrite contains_cons, orb_true_iff, prefix_spec, IH. split.
    + intros [[post H] | (pre & post & H)].
      * now exists EmptyString, post.
      * exists (String c pre), post. now rewrite H.
    + intros (pre & post & H). destruct pre as [| d pre].
      * left. now exists post.
      * right. exists pre, post. now inversion H.
Qed.

End StringFacts.

Section DispatcherFacts.

Context {World : Type}.

Implicit Types (st : state World (TriggerManager World)) (t : Trigger World).
Implicit Types (cb : Callable World (string * context)) (m text : string) (c : context).

Lemma invoke_run {Obj} cb m c (s : state World Obj) :
  invoke cb (m, c) s =
    (mkState (self s) (fst (body cb (m, c) (world s))) (trace s ++ [Called (fname cb)]),
     match snd (body cb (m, c) (world s)) with
     | None => Returned tt
     | Some e => Raised e
     end).
Proof.
  unfold invoke, await, call. simpl.
  destruct (is_coroutine cb); destruct (body cb (m, c) (world s)) as [w' [e |]]; reflexivity.
Qed.

Lemma check_keyword_hit cb m c text acc kw st :
  contains text kw = true ->
  check_keyword m c cb text acc kw st =
    (mkState (self st) (fst (body cb (m, c) (world st)))
       (trace st ++ [Logged INFO (KeywordTriggerActivated kw); Called (fname cb)]),
     match snd (body cb (m, c) (world st)) with
     | None => Returned true
     | Some e => Raised e
     end).
Proof.
  intros H. unfold check_keyword. rewrite H.
  unfold bind at 1. unfold log at 1, emit at 1. unfold bind at 1.
  rewrite invoke_run. cbn [self world trace].
  rewrite <- app_assoc.
  destruct (snd (body cb (m, c) (world st))); reflexivity.
Qed.

Lemma check_keyword_miss cb m c text acc kw st :
  contains text kw = false ->
  check_keyword m c cb text acc kw st = (st, Returned acc).
Proof.
  intros H. unfold check_keyword. now rewrite H.
Qed.

Lemma keyword_fold_quiet cb m c text :
  quiet cb ->
  forall kws acc st,
    fold_each kws (check_keyword m c cb text) acc st =
      (mkState (self st)
         (called_times (length (List.filter (contains text) kws)) cb m c (world st))
         (trace st ++ flat_map (hit_events cb) (List.filter (contains text) kws)),
       Returned (acc || existsb (contains text) kws)).
Proof.
  intros Hq. induction kws as [| kw kws IH]; intros acc st.
  - simpl. unfold ret. rewrite app_nil_r, orb_false_r. now destruct st.
  - cbn [fold_each]. unfold bind at 1.
    destruct (contains text kw) eqn:E.
    + rewrite (check_keyword_hit _ _ _ _ _ _ _ E), (Hq (m, c) (world st)).
      rewrite IH. cbn [self world trace List.filter existsb]. rewrite E.
      cbn [length flat_map]. unfold called_times. rewrite Nat.iter_succ_r.
      rewrite <- app_assoc, orb_true_r. reflexivity.
    + rewrite (check_keyword_miss _ _ _ _ _ _ _ E), IH.
      cbn [List.filter existsb]. rewrite E. reflexivity.
Qed.

Lemma keyword_fold_returned cb m c text :
  forall kws acc st st' b,
    fold_each kws (check_keyword m c cb text) acc st = (st', Returned b) ->
    b = acc || existsb (contains text) kws.
Proof.
  induction kws as [| kw kws IH]; intros acc st st' b H.
  - simpl in H. unfold ret in H. inversion H. now rewrite orb_false_r.
  - cbn [fold_each] in H. unfold bind at 1 in H. cbn [existsb].
    destruct (contains text kw) eqn:E.
    + rewrite (check_keyword_hit _ _ _ _ _ _ _ E) in H.
      destruct (snd (body cb (m, c) (world st))); [discriminate |].
      apply IH in H. rewrite H. now rewrite orb_true_r.
    + rewrite (check_keyword_miss _ _ _ _ _ _ _ E) in H.
      apply IH in H. exact H.
Qed.


Lemma mention_hit cb m c acc st :
  is_mention c = true ->
  check_trigger m c acc (mention_trigger cb) st =
    (mkState (self st) (fst (body cb (m, c) (world st))) (trace st ++ mention_events cb),
     match snd (body cb (m, c) (world st)) with
     | None => Returned true
     | Some e => Raised e
     end).
Proof.
  intros H. unfold check_trigger. fold (is_mention c). rewrite H.
  unfold bind at 1. unfold log at 1, emit at 1. unfold bind at 1.
  rewrite invoke_run. cbn [self world trace].
  rewrite <- app_assoc.
  destruct (snd (body cb (m, c) (world st))); reflexivity.
Qed.

Lemma mention_miss cb m c acc st :
  is_mention c = false ->
  check_trigger m c acc (mention_trigger cb) st = (st, Returned acc).
Proof.
  intros H. unfold check_trigger. fold (is_mention c). now rewrite H.
Qed.

Lemma check_trigger_quiet m c acc t st :
  quiet (trigger_callback t) ->
  check_trigger m c acc t st =
    (mkState (self st)
       (called_times (invocations m c t) (trigger_callback t) m c (world st))
       (trace st ++ firing_events m c t),
     Returned (acc || fires m c t)).
Proof.
  intros Hq. destruct t as [kws cs cb | cb].
  - exact (keyword_fold_quiet cb m c (searched_text cs m) Hq kws acc st).
  - cbn [invocations firing_events fires trigger_callback] in *.
    destruct (is_mention c) eqn:E.
    + rewrite (mention_hit _ _ _ _ _ E), (Hq (m, c) (world st)).
      now rewrite orb_true_r.
    + rewrite (mention_miss _ _ _ _ _ E), app_nil_r, orb_false_r. now destruct st.
Qed.

Lemma check_trigger_returned m c acc t st st' b :
  check_trigger m c acc t st = (st', Returned b) -> b = acc || fires m c t.
Proof.
  destruct t as [kws cs cb | cb]; intros H.
  - exact (keyword_fold_returned cb m c (searched_text cs m) kws acc st st' b H).
  - cbn [fires]. destruct (is_mention c) eqn:E.
    + rewrite (mention_hit _ _ _ _ _ E) in H.
      destruct (snd (body cb (m, c) (world st))); [discriminate |].
      inversion H. now rewrite orb_true_r.
    + rewrite (mention_miss _ _ _ _ _ E) in H. inversion H. now rewrite orb_false_r.
Qed.



Lemma rules_fold_quiet m c :
  forall ts acc st,
    (forall t, t ∈ ts -> quiet (trigger_callback t)) ->
    fold_each ts (check_trigger m c) acc st =
      (mkState (self st) (dispatched m c ts (world st))
         (trace st ++ flat_map (firing_events m c) ts),
       Returned (acc || existsb (fires m c) ts)).
Proof.
  induction ts as [| t ts IH]; intros acc st Hq.
  - simpl. unfold ret. rewrite app_nil_r, orb_false_r. now destruct st.
  - cbn [fold_each]. unfold bind at 1.
    rewrite (check_trigger_quiet m c acc t st) by (apply Hq, list_elem_of_here).
    rewrite IH by (intros t' Ht'; apply Hq; now apply list_elem_of_further).
    cbn [self world trace flat_map existsb]. unfold dispatched. cbn [fold_left].
    now rewrite <- app_assoc, orb_assoc.
Qed.

Lemma rules_fold_returned m c :
  forall ts acc st st' b,
    fold_each ts (check_trigger m c) acc st = (st', Returned b) ->
    b = acc || existsb (fires m c) ts.
Proof.
  induction ts as [| t ts IH]; intros acc st st' b H.
  - simpl in H. unfold ret in H. inversion H. now rewrite orb_false_r.
  - cbn [fold_each] in H. unfold bind at 1 in H.
    destruct (check_trigger m c acc t st) as [s1 [acc1 | e]] eqn:E; [| discriminate].
    apply check_trigger_returned in E. apply IH in H.
    cbn [existsb]. now rewrite H, E, orb_assoc.
Qed.

Lemma check_triggers_unfold m c st :
  check_triggers m c st = fold_each (triggers (self st)) (check_trigger m c) false st.
Proof. reflexivity. Qed.

End DispatcherFacts.

Lemma existsb_filter_length {A} (p : A -> bool) (l : list A) :
  existsb p l = negb (length (List.filter p l) =? 0)%nat.
Proof.
  induction l as [| x l IH]; [reflexivity |]. cbn [existsb List.filter].
  destruct (p x); [reflexivity | exact IH].
Qed.

Lemma calls_hit_events {World} (cb : Callable World (string * context)) (l : list string) :
  calls (flat_map (hit_events cb) l) = length l.
Proof.
  induction l as [| kw l IH]; [reflexivity |]. cbn [flat_map].
  rewrite calls_app, IH. reflexivity.
Qed.

Section DispatcherClaims.

Context {World : Type}.

Implicit Types (st : state World (TriggerManager World)) (t : Trigger World).
Implicit Types (cb : Callable World (string * context)) (m text : string) (c : context).


(** C6.  Whenever [check_triggers] returns, it returns true exactly when a
    registered rule fires on the message; it does return, with one
    activation line and one call per invocation in the trace, when the
    callbacks return.  A keyword rule fires exactly when one of its stored
    keywords is a substring of the searched text, the message lowered unless
    the rule is case sensitive; the keywords are stored lowered at
    registration unless the rule is case sensitive.  With [["gm"; "wagmi"]]
    registered case-insensitively, ["GM fren"] gives true and
    ["nothing relevant"] gives false. *)
Theorem check_triggers_true_iff_a_rule_fires st m c :
  (forall st' b,
      check_triggers m c st = (st', Returned b) ->
      (b = true <-> exists t, t ∈ triggers (self st) /\ fires m c t = true))
  /\ ((forall t, t ∈ triggers (self st) -> quiet (trigger_callback t)) ->
      check_triggers m c st =
        (mkState (self st) (dispatched m c (triggers (self st)) (world st))
           (trace st ++ flat_map (firing_events m c) (triggers (self st))),
         Returned (existsb (fires m c) (triggers (self st)))))
  /\ (forall kws cs cb,
        fires m c (keyword_trigger kws cs cb) = true
        <-> exists kw pre post,
              kw ∈ kws
              /\ (if cs then m else lower m) = (pre ++ kw ++ post)%string)
  /\ (forall kws cb cs,
        triggers (self (after st (add_keyword_trigger kws cb cs)))
        = triggers (self st)
          ++ [keyword_trigger (if cs then kws else map lower kws) cs cb])
  /\ (forall cb (w : World),
        quiet cb ->
        let tm := after (init_triggers w) (add_keyword_trigger ["gm"; "wagmi"] cb false) in
        snd (check_triggers "GM fren" ∅ tm) = Returned true
        /\ snd (check_triggers "nothing relevant" ∅ tm) = Returned false).
Proof.
  split.
  { intros st' b H. rewrite check_triggers_unfold in H.
    apply rules_fold_returned in H. rewrite H. cbn [orb].
    rewrite existsb_exists. split.
    - intros (t & Hin & Hf). exists t. now rewrite list_elem_of_In.
    - intros (t & Hin & Hf). exists t. now rewrite <- list_elem_of_In. }
  split.
  { intros Hq. rewrite check_triggers_unfold. now rewrite rules_fold_quiet. }
  split.
  { intros kws cs cb. cbn [fires]. rewrite existsb_exists. unfold searched_text. split.
    - intros (kw & Hin & Hc). apply contains_spec in Hc as (pre & post & Hc).
      exists kw, pre, post. now rewrite list_elem_of_In.
    - intros (kw & pre & post & Hin & Hc). exists kw. rewrite <- list_elem_of_In.
      split; [exact Hin |]. apply contains_spec. now exists pre, post. }
  split; [reflexivity |].
  intros cb w Hq tm.
  assert (Hall : forall t, t ∈ triggers (self tm) -> quiet (trigger_callback t)).
  { intros t Ht. apply list_elem_of_singleton in Ht. now subst t. }
  split; rewrite check_triggers_unfold, (rules_fold_quiet _ _ _ _ _ Hall); reflexivity.
Qed.

(** C7.  A registered mention rule fires on [check_triggers(message,
    context)] exactly when the entry ["is_mention"] of the context, read
    with the default [False], is true.  When the context maps
    ["is_mention"] to [True] the call logs the activation and runs the
    callback once on the message and the context: the world is the one the
    callback leaves, and the call returns [True] when the callback returns
    and raises what the callback raises.  When the context maps it to
    [False] or has no such entry the callback is not run: the call returns
    [False] and nothing at all has changed.  The message plays no part in
    the decision; it is only handed to the callback. *)
Theorem mention_trigger_fires_iff_is_mention cb m c (w : World) :
  let tm := after (init_triggers w) (add_mention_trigger cb) in
  let fired m' := calls_of (fname cb) (trace (after tm (check_triggers m' c))) in
  let ran m' :=
    (mkState (self tm) (fst (body cb (m', c) w)) (trace tm ++ mention_events cb),
     match snd (body cb (m', c) w) with
     | None => Returned true
     | Some e => Raised e
     end) in
  fired m = (if truthy (get c "is_mention" (PyBool false)) then 1 else 0)
  /\ (c !! "is_mention" = Some (PyBool true) -> fired m = 1)
  /\ (c !! "is_mention" = Some (PyBool false) -> fired m = 0)
  /\ (c !! "is_mention" = None -> fired m = 0)
  /\ (forall m', fired m' = fired m)
  /\ (forall acc st,
        trace (fst (check_trigger m c acc (mention_trigger cb) st))
        = trace st ++ (if is_mention c then mention_events cb else []))
  /\ (forall m',
        check_triggers m' c tm
        = if truthy (get c "is_mention" (PyBool false)) then ran m'
          else (tm, Returned false))
  /\ (c !! "is_mention" = Some (PyBool true) ->
      forall m', check_triggers m' c tm = ran m')
  /\ (c !! "is_mention" = Some (PyBool false) ->
      forall m', check_triggers m' c tm = (tm, Returned false))
  /\ (c !! "is_mention" = None ->
      forall m', check_triggers m' c tm = (tm, Returned false))
  /\ (forall m' acc st,
        check_trigger m' c acc (mention_trigger cb) st
        = if truthy (get c "is_mention" (PyBool false))
          then (mkState (self st) (fst (body cb (m', c) (world st)))
                  (trace st ++ mention_events cb),
                match snd (body cb (m', c) (world st)) with
                | None => Returned true
                | Some e => Raised e
                end)
          else (st, Returned acc)).
Proof.
  intros tm fired ran.
  assert (Hone : forall m' acc st,
             check_trigger m' c acc (mention_trigger cb) st
             = if is_mention c
               then (mkState (self st) (fst (body cb (m', c) (world st)))
                       (trace st ++ mention_events cb),
                     match snd (body cb (m', c) (world st)) with
                     | None => Returned true
                     | Some e => Raised e
                     end)
               else (st, Returned acc)).
  { intros m' acc st. destruct (is_mention c) eqn:E.
    - exact (mention_hit _ _ _ _ _ E).
    - exact (mention_miss _ _ _ _ _ E). }
  assert (Hstep : forall m' acc st,
             trace (fst (check_trigger m' c acc (mention_trigger cb) st))
             = trace st ++ (if is_mention c then mention_events cb else [])).
  { intros m' acc st. rewrite Hone. destruct (is_mention c); [reflexivity |].
    cbn [fst]. now rewrite app_nil_r. }
  assert (Hall : forall m',
             check_triggers m' c tm
             = if is_mention c then ran m' else (tm, Returned false)).
  { intros m'. rewrite check_triggers_unfold.
    change (triggers (self tm)) with [mention_trigger cb].
    cbn [fold_each]. unfold bind at 1. rewrite Hone.
    change (world tm) with w.
    destruct (is_mention c); [| reflexivity].
    unfold ran. destruct (snd (body cb (m', c) w)); reflexivity. }
  assert (Hfired : forall m', fired m' = if is_mention c then 1 else 0).
  { intros m'. unfold fired, after. rewrite check_triggers_unfold.
    change (triggers (self tm)) with [mention_trigger cb].
    cbn [fold_each]. unfold bind at 1.
    pose proof (Hstep m' false tm) as Ht.
    destruct (check_trigger m' c false (mention_trigger cb) tm) as [s1 [acc1 | e]];
      cbn [fst trace] in *; unfold ret; cbn [fst]; rewrite Ht;
      (destruct (is_mention c); cbn; [now rewrite String.eqb_refl | reflexivity]). }
  split; [apply Hfired |].
  split; [intros H; rewrite Hfired; unfold is_mention, get; now rewrite H |].
  split; [intros H; rewrite Hfired; unfold is_mention, get; now rewrite H |].
  split; [intros H; rewrite Hfired; unfold is_mention, get; now rewrite H |].
  split; [intros m'; now rewrite !Hfired |].
  split; [apply Hstep |].
  split; [exact Hall |].
  split; [intros H m'; rewrite Hall; unfold is_mention, get; now rewrite H |].
  split; [intros H m'; rewrite Hall; unfold is_mention, get; now rewrite H |].
  split; [intros H m'; rewrite Hall; unfold is_mention, get; now rewrite H |].
  exact Hone.
Qed.

(** C10.  In one call of [check_triggers] a keyword rule whose callback
    returns has it invoked once for each of its keywords found in the
    message, in the rule's order, and not once for the rule: a rule with
    several keywords present calls its callback that many times. *)
Theorem keyword_callback_once_per_matching_keyword kws cs cb m c acc st :
  quiet cb ->
  let found := matching_keywords kws cs m in
  let r := check_trigger m c acc (keyword_trigger kws cs cb) st in
  trace (fst r) = trace st ++ flat_map (hit_events cb) found
  /\ calls (trace (fst r)) = calls (trace st) + length found
  /\ world (fst r) = called_times (length found) cb m c (world st)
  /\ snd r = Returned (acc || negb (length found =? 0)%nat)
  /\ (triggers (self st) = [keyword_trigger kws cs cb] ->
      calls (trace (after st (check_triggers m c))) = calls (trace st) + length found).
Proof.
  intros Hq found r.
  assert (Hcalls := calls_hit_events cb found).
  assert (Hr : r = (mkState (self st) (called_times (length found) cb m c (world st))
                      (trace st ++ flat_map (hit_events cb) found),
                    Returned (acc || fires m c (keyword_trigger kws cs cb))))
    by exact (check_trigger_quiet m c acc (keyword_trigger kws cs cb) st Hq).
  rewrite Hr. cbn [fst snd trace world].
  split; [reflexivity |].
  split; [now rewrite calls_app, Hcalls |].
  split; [reflexivity |].
  split; [do 2 f_equal; apply existsb_filter_length |].
  intros Hts. unfold after. rewrite check_triggers_unfold, Hts.
  cbn [fold_each]. unfold bind at 1.
  rewrite (check_trigger_quiet m c false (keyword_trigger kws cs cb) st Hq).
  unfold ret. cbn [fst trace firing_events]. fold found.
  now rewrite calls_app, Hcalls.
Qed.

End DispatcherClaims.

Lemma reply_quiet : quiet reply.
Proof. intros args w. reflexivity. Qed.



Lemma check_triggers_true_iff_a_rule_fires_witness :
  (forall t, t ∈ triggers (self gm_rules) -> quiet (trigger_callback t))
  /\ check_triggers "GM fren" no_context gm_rules =
       (mkState (self gm_rules)
          (dispatched "GM fren" no_context (triggers (self gm_rules)) (world gm_rules))
          (trace gm_rules
           ++ flat_map (firing_events "GM fren" no_context) (triggers (self gm_rules))),
        Returned (existsb (fires "GM fren" no_context) (triggers (self gm_rules)))).
Proof.
  assert (H : forall t, t ∈ triggers (self gm_rules) -> quiet (trigger_callback t)).
  { intros t Ht. apply list_elem_of_singleton in Ht. subst t. exact reply_quiet. }
  split; [exact H |].
  exact (proj1 (proj2 (check_triggers_true_iff_a_rule_fires gm_rules "GM fren" no_context)) H).
Defined.

Lemma mention_trigger_fires_iff_is_mention_witness :
  mentioned !! "is_mention" = Some (PyBool true)
  /\ not_mentioned !! "is_mention" = Some (PyBool false)
  /\ no_context !! "is_mention" = None
  /\ calls_of "reply" (trace (after mention_rule (check_triggers "anything" mentioned))) = 1
  /\ calls_of "reply" (trace (after mention_rule (check_triggers "anything" not_mentioned))) = 0
  /\ calls_of "reply" (trace (after mention_rule (check_triggers "anything" no_context))) = 0
  /\ check_triggers "anything" mentioned mention_rule
     = (mkState (self mention_rule) 1
          (trace mention_rule ++ [Logged INFO MentionTriggerActivated; Called "reply"]),
        Returned true)
  /\ check_triggers "anything" not_mentioned mention_rule = (mention_rule, Returned false)
  /\ check_triggers "anything" no_context mention_rule = (mention_rule, Returned false).
Proof.
  assert (H1 : mentioned !! "is_mention" = Some (PyBool true)) by reflexivity.
  assert (H2 : not_mentioned !! "is_mention" = Some (PyBool false)) by reflexivity.
  assert (H3 : no_context !! "is_mention" = None) by reflexivity.
  split; [exact H1 |]. split; [exact H2 |]. split; [exact H3 |].
  destruct (mention_trigger_fires_iff_is_mention reply "anything" mentioned 0)
    as (_ & Ha & _ & _ & _ & _ & _ & Hb & _).
  destruct (mention_trigger_fires_iff_is_mention reply "anything" not_mentioned 0)
    as (_ & _ & Hc & _ & _ & _ & _ & _ & Hd & _).
  destruct (mention_trigger_fires_iff_is_mention reply "anything" no_context 0)
    as (_ & _ & _ & He & _ & _ & _ & _ & _ & Hf & _).
  split; [exact (Ha H1) |].
  split; [exact (Hc H2) |].
  split; [exact (He H3) |].
  split; [exact (Hb H1 "anything") |].
  split; [exact (Hd H2 "anything") |].
  exact (Hf H3 "anything").
Defined.

Lemma keyword_callback_once_per_matching_keyword_witness :
  quiet reply
  /\ matching_keywords ["gm"; "fren"; "wagmi"] false "GM Fren" = ["gm"; "fren"]
  /\ calls (trace (after three_keywords (check_triggers "GM Fren" no_context)))
     = calls (trace three_keywords) + 2.
Proof.
  split; [exact reply_quiet |].
  split; [reflexivity |].
  exact (proj2 (proj2 (proj2 (proj2
           (keyword_callback_once_per_matching_keyword
              ["gm"; "fren"; "wagmi"] false reply "GM Fren" no_context false
              three_keywords reply_quiet)))) eq_refl).
Defined.

(** ** More on the scheduler: flags, start and stop, ticks *)

Section RegistryFacts.

Context {World : Type}.

Implicit Types (st : state World (Orchestrator World)) (t : Task World).
Implicit Types (a : addr) (o : oracle) (os : list oracle).

Lemma status_tasks_map (orc : Orchestrator World) :
  status_tasks (get_status orc) = map (fun a => status_of (heap orc !!! a)) (tasks orc).
Proof. reflexivity. Qed.

Lemma status_of_set_enabled b nm t :
  status_of (if String.eqb (name t) nm then set_enabled b t else t)
  = with_status_enabled b nm (status_of t).
Proof.
  unfold with_status_enabled. cbn [status_of status_name].
  now destruct (String.eqb (name t) nm).
Qed.

Lemma fold_with_enabled_length b nm ts :
  forall h : list (Task World), length (foldl (with_enabled b nm) h ts) = length h.
Proof.
  induction ts as [| x ts IH]; intros h; [reflexivity |]. cbn [foldl].
  rewrite IH. unfold with_enabled.
  destruct (String.eqb _ nm); [apply length_alter | reflexivity].
Qed.

(** The loop of [enable_task] and [disable_task], seen through
    [get_status]. *)
Lemma set_enabled_loop_status b nm msg st :
  well_formed (self st) ->
  exists st',
    set_enabled_loop b nm msg (tasks (self st)) st = (st', Returned tt)
    /\ status_tasks (get_status (self st'))
       = map (with_status_enabled b nm) (status_tasks (get_status (self st)))
    /\ status_running (get_status (self st')) = status_running (get_status (self st))
    /\ loops (self st') = loops (self st)
    /\ world st' = world st
    /\ calls (trace st') = calls (trace st)
    /\ well_formed (self st').
Proof.
  intros [Hts Hls].
  destruct (set_enabled_loop_run b nm msg (tasks (self st)) st) as [n Hn].
  eexists. split; [exact Hn |]. cbn [self world trace].
  split.
  { rewrite !status_tasks_map. cbn [heap tasks set_heap]. rewrite map_map.
    apply map_ext_in. intros a Ha. apply list_elem_of_In in Ha.
    rewrite Forall_forall in Hts.
    destruct (lookup_lt_is_Some_2 _ _ (Hts a Ha)) as [t Ht].
    rewrite (list_lookup_total_correct _ _ _ Ht).
    rewrite (list_lookup_total_correct _ _ _
               (with_enabled_fold_lookup b nm (tasks (self st)) _ _ _ Ht)).
    rewrite (bool_decide_eq_true_2 _ Ha). cbn [andb].
    apply status_of_set_enabled. }
  split; [reflexivity |]. split; [reflexivity |]. split; [reflexivity |].
  split; [now rewrite calls_app, calls_logs, Nat.add_0_r |].
  split; cbn [heap tasks loops set_heap]; rewrite fold_with_enabled_length; assumption.
Qed.

(** With no task of that name the loop does nothing at all. *)
Lemma set_enabled_loop_absent b nm msg ts :
  forall st,
    (forall a, a ∈ ts -> name (heap (self st) !!! a) <> nm) ->
    set_enabled_loop b nm msg ts st = (st, Returned tt).
Proof.
  induction ts as [| x ts IH]; intros st H; [reflexivity |].
  unfold set_enabled_loop in *. cbn [for_each].
  unfold bind at 1. unfold bind at 1. unfold deref at 1, gets at 1.
  assert (E : String.eqb (name (heap (self st) !!! x)) nm = false)
    by (apply String.eqb_neq, H, list_elem_of_here).
  rewrite E. unfold ret at 1. apply IH.
  intros a Ha. apply H. now apply list_elem_of_further.
Qed.

End RegistryFacts.

Section RegistryExtras.

Context {World : Type}.

Implicit Types (st : state World (Orchestrator World)) (t : Task World).
Implicit Types (a : addr) (o : oracle) (os : list oracle).

(** X1.  [enable_task] and [disable_task] set the flag of every registered
    task of the given name and of no other: in [get_status] the entries of
    that name show the new flag, every other field and entry is as before,
    and neither the scheduler's [running] flag, nor the loops, nor the world
    changes; no action is called. *)
Theorem toggle_sets_flag_by_name st nm :
  well_formed (self st) ->
  (exists st',
      enable_task nm st = (st', Returned tt)
      /\ status_tasks (get_status (self st'))
         = map (with_status_enabled true nm) (status_tasks (get_status (self st)))
      /\ status_running (get_status (self st')) = status_running (get_status (self st))
      /\ loops (self st') = loops (self st)
      /\ world st' = world st
      /\ calls (trace st') = calls (trace st))
  /\ (exists st',
      disable_task nm st = (st', Returned tt)
      /\ status_tasks (get_status (self st'))
         = map (with_status_enabled false nm) (status_tasks (get_status (self st)))
      /\ status_running (get_status (self st')) = status_running (get_status (self st))
      /\ loops (self st') = loops (self st)
      /\ world st' = world st
      /\ calls (trace st') = calls (trace st)).
Proof.
  intros Hwf. split.
  - destruct (set_enabled_loop_status true nm (EnabledTask nm) st Hwf)
      as (st' & H1 & H2 & H3 & H4 & H5 & H6 & _).
    exists st'. repeat (split; [assumption |]). assumption.
  - destruct (set_enabled_loop_status false nm (DisabledTask nm) st Hwf)
      as (st' & H1 & H2 & H3 & H4 & H5 & H6 & _).
    exists st'. repeat (split; [assumption |]). assumption.
Qed.

(** X2.  With a name that no registered task has, [enable_task] and
    [disable_task] change nothing, and unlike [remove_task] they log
    nothing either. *)
Theorem toggle_absent_name_is_noop st nm :
  (forall s, s ∈ status_tasks (get_status (self st)) -> status_name s <> nm) ->
  enable_task nm st = (st, Returned tt)
  /\ disable_task nm st = (st, Returned tt)
  /\ trace (fst (remove_task nm st)) = trace st ++ [Logged INFO (RemovedTask nm)].
Proof.
  intros H.
  assert (Hn : forall a, a ∈ tasks (self st) -> name (heap (self st) !!! a) <> nm).
  { intros a Ha. apply (H (status_of (heap (self st) !!! a))).
    rewrite status_tasks_map. apply list_elem_of_In.
    apply (in_map (fun a' => status_of (heap (self st) !!! a'))).
    now apply list_elem_of_In. }
  split; [exact (set_enabled_loop_absent true nm (EnabledTask nm) _ st Hn) |].
  split; [exact (set_enabled_loop_absent false nm (DisabledTask nm) _ st Hn) |].
  reflexivity.
Qed.

End RegistryExtras.

Section LifecycleFacts.

Context {World : Type}.

Implicit Types (st : state World (Orchestrator World)) (t : Task World).
Implicit Types (a : addr) (o : oracle) (os : list oracle).

Lemma start_run st :
  start st =
    if running (self st)
    then (mkState (self st) (world st) (trace st ++ [Logged WARNING AlreadyRunning]),
          Returned tt)
    else (mkState (set_running (match tasks (self st) with [] => false | _ :: _ => true end)
                     (set_loops (loops (self st) ++ tasks (self st))
                        (set_running true (self st))))
            (world st) (trace st ++ [Logged INFO StartingOrchestrator]),
          Returned tt).
Proof.
  destruct st as [[vf ts r h ls] w tr].
  destruct r; [reflexivity |]. now destruct ts.
Qed.

Lemma start_finish_run g st :
  start_finish g st =
    (mkState (set_running false (self st)) (world st)
       (trace st ++ match g with
                    | Cancelled => [Logged INFO OrchestratorCancelled]
                    | _ => []
                    end),
     match g with Failed e => Raised e | _ => Returned tt end).
Proof.
  destruct st as [s w tr]. destruct g; cbn; rewrite ?app_nil_r; reflexivity.
Qed.

Lemma stop_run st :
  stop st =
    (mkState (set_running false (self st)) (world st)
       (trace st ++ [Logged INFO StoppingOrchestrator]),
     Returned tt).
Proof. reflexivity. Qed.

Lemma loop_stopped os st a :
  running (self st) = false ->
  os <> [] ->
  _task_loop os a st = (st, Returned Exited).
Proof.
  intros Hr Hos. destruct os as [| o os]; [contradiction |].
  cbn [_task_loop]. unfold bind, gets. now rewrite Hr.
Qed.

(** One iteration on an enabled task whose action raises what is not an
    [Exception]. *)
Lemma loop_body_propagates st o a t w' e :
  heap (self st) !! a = Some t ->
  enabled t = true ->
  body (callback t) tt (world st) = (w', Some e) ->
  derives_Exception e = false ->
  _task_loop_body o a st = (mkState (self st) w' (trace st ++ launch t), Raised e).
Proof.
  intros Ha He Hb Hex. unfold _task_loop_body.
  unfold bind at 1. unfold bind at 1. unfold deref at 1, gets at 1.
  rewrite (list_lookup_total_correct _ _ _ Ha), He. unfold await at 1.
  now rewrite (run_task_propagates _ (now_ o) _ _ _ _ Ha Hb Hex).
Qed.

(** An iteration either leaves the instance as it is or stamps and counts
    the task of the loop. *)
Lemma loop_body_cases st o a t :
  heap (self st) !! a = Some t ->
  exists w tr r,
    _task_loop_body o a st = (mkState (self st) w tr, r)
    \/ _task_loop_body o a st =
         (mkState (set_heap (<[a := completed (now_ o) t]> (heap (self st))) (self st)) w tr,
          Returned tt).
Proof.
  intros Ha. destruct (enabled t) eqn:He.
  - destruct (body (callback t) tt (world st)) as [w' [e |]] eqn:Hb.
    + destruct (derives_Exception e) eqn:Hex.
      * rewrite (loop_body_enabled _ _ _ _ _ Ha He
                   (run_task_caught _ (now_ o) _ _ _ _ Ha Hb Hex)).
        cbn [self world trace]. do 3 eexists. left. reflexivity.
      * rewrite (loop_body_propagates _ _ _ _ _ _ Ha He Hb Hex).
        do 3 eexists. left. reflexivity.
    + rewrite (loop_body_enabled _ _ _ _ _ Ha He
                 (run_task_returns _ (now_ o) _ _ _ Ha Hb)).
      cbn [self world trace]. exists w'. eexists. exists (Returned tt). right. reflexivity.
  - rewrite (loop_body_disabled _ _ _ _ Ha He). do 3 eexists. left. reflexivity.
Qed.

Lemma loop_step st o os a :
  _task_loop (o :: os) a st =
    if running (self st)
    then match _task_loop_body o a st with
         | (st', Returned _) => _task_loop os a st'
         | (st', Raised e) => (st', Raised e)
         end
    else (st, Returned Exited).
Proof.
  cbn [_task_loop]. unfold bind at 1. unfold gets at 1.
  destruct (running (self st)); [| reflexivity]. unfold bind at 1. reflexivity.
Qed.

(** What a loop may have done to the instance after any number of ticks. *)
Lemma loop_frame os :
  forall st a t,
    heap (self st) !! a = Some t ->
    exists t',
      heap (self (fst (_task_loop os a st))) !! a = Some t'
      /\ name t' = name t
      /\ callback t' = callback t
      /\ interval_seconds t' = interval_seconds t
      /\ enabled t' = enabled t
      /\ (run_count t <= run_count t' <= run_count t + Z.of_nat (length os))%Z
      /\ (forall b, b <> a ->
            heap (self (fst (_task_loop os a st))) !! b = heap (self st) !! b)
      /\ tasks (self (fst (_task_loop os a st))) = tasks (self st)
      /\ loops (self (fst (_task_loop os a st))) = loops (self st)
      /\ length (heap (self (fst (_task_loop os a st)))) = length (heap (self st)).
Proof.
  induction os as [| o os IH]; intros st a t Ha.
  - exists t. cbn. repeat split; try assumption; try reflexivity; lia.
  - rewrite loop_step. destruct (running (self st)).
    2:{ exists t. cbn [fst]. repeat split; try assumption; try reflexivity; lia. }
    destruct (loop_body_cases st o a t Ha) as (w & tr & r & [E | E]); rewrite E.
    + destruct r as [[] | e].
      * destruct (IH (mkState (self st) w tr) a t Ha)
          as (t' & H1 & H2 & H3 & H4 & H5 & H6 & H7 & H8 & H9 & H10).
        exists t'. repeat (split; [assumption |]).
        split; [| repeat (split; [assumption |]); assumption].
        rewrite length_cons. lia.
      * exists t. cbn [fst self]. repeat split; try assumption; try reflexivity;
          rewrite ?length_cons; lia.
    + assert (Hlt : a < length (heap (self st))) by (eapply lookup_lt_Some, Ha).
      set (st1 := mkState (set_heap (<[a := completed (now_ o) t]> (heap (self st)))
                             (self st)) w tr).
      assert (Ha1 : heap (self st1) !! a = Some (completed (now_ o) t))
        by (apply list_lookup_insert_eq, Hlt).
      destruct (IH st1 a _ Ha1)
        as (t' & H1 & H2 & H3 & H4 & H5 & H6 & H7 & H8 & H9 & H10).
      exists t'. split; [exact H1 |].
      repeat (split; [assumption |]).
      split; [cbn [completed run_count] in H6; rewrite length_cons; lia |].
      split.
      { intros b Hb. rewrite (H7 b Hb). cbn [st1 self heap set_heap].
        apply list_lookup_insert_ne. congruence. }
      split; [exact H8 |]. split; [exact H9 |].
      rewrite H10. cbn [st1 self heap set_heap]. apply length_insert.
Qed.

(** Ticks whose action returns, one after the other. *)
Lemma loop_quiet_ticks os :
  forall st a t,
    running (self st) = true ->
    heap (self st) !! a = Some t ->
    enabled t = true ->
    quiet (callback t) ->
    exists st',
      _task_loop os a st = (st', Returned Suspended)
      /\ heap (self st') !! a
         = Some (mkTask (name t) (callback t) (interval_seconds t) (enabled t)
                        (last_tick os (last_run t))
                        (run_count t + Z.of_nat (length os)))
      /\ world st' = ran_times (length os) (callback t) (world st)
      /\ calls (trace st') = calls (trace st) + length os
      /\ running (self st') = true.
Proof.
  induction os as [| o os IH]; intros st a t Hr Ha He Hq.
  - exists st. split; [reflexivity |].
    split; [rewrite Ha; destruct t; cbn; do 2 f_equal; lia |].
    split; [reflexivity |]. split; [cbn; lia | exact Hr].
  - pose proof (Hq tt (world st)) as Hb.
    destruct (body (callback t) tt (world st)) as [w' r] eqn:Eb.
    cbn [snd] in Hb. subst r.
    rewrite (loop_unfold _ _ _ _ Hr).
    rewrite (loop_body_enabled _ _ _ _ _ Ha He (run_task_returns _ (now_ o) _ _ _ Ha Eb)).
    cbn [self world trace].
    assert (Hlt : a < length (heap (self st))) by (eapply lookup_lt_Some, Ha).
    match goal with
    | |- context [_task_loop os a ?s] => set (st1 := s)
    end.
    assert (Ha1 : heap (self st1) !! a = Some (completed (now_ o) t))
      by (apply list_lookup_insert_eq, Hlt).
    destruct (IH st1 a _ Hr Ha1 He Hq) as (st' & H1 & H2 & H3 & H4 & H5).
    exists st'. split; [exact H1 |].
    split.
    { rewrite H2. cbn [completed name callback interval_seconds enabled last_run run_count
                         last_tick fold_left length].
      do 2 f_equal. lia. }
    split.
    { rewrite H3. cbn [st1 world length]. unfold ran_times.
      rewrite Nat.iter_succ_r, Eb. reflexivity. }
    split; [| exact H5].
    rewrite H4. cbn [st1 trace length]. rewrite !calls_app. cbn. lia.
Qed.

Lemma add_task_status st nm cb iv en :
  well_formed (self st) ->
  status_tasks (get_status (self (fst (add_task nm cb iv en st))))
  = status_tasks (get_status (self st)) ++ [mkTaskStatus nm en iv None 0].
Proof.
  intros [Hts _]. rewrite add_task_registers. cbn [fst self].
  rewrite !status_tasks_map. cbn [heap tasks]. rewrite map_app. f_equal.
  - apply map_ext_in. intros a Ha. apply list_elem_of_In in Ha.
    rewrite Forall_forall in Hts.
    destruct (lookup_lt_is_Some_2 _ _ (Hts a Ha)) as [t Ht].
    rewrite (list_lookup_total_correct _ _ _ Ht).
    now rewrite (list_lookup_total_correct _ _ _ (lookup_app_l_Some _ _ _ _ Ht)).
  - cbn [map]. now rewrite (list_lookup_total_correct _ _ _ (new_task_lookup _ _)).
Qed.

Lemma add_task_well_formed st nm cb iv en :
  well_formed (self st) -> well_formed (self (fst (add_task nm cb iv en st))).
Proof.
  intros [Hts Hls]. rewrite add_task_registers. cbn [fst self].
  unfold well_formed. cbn [heap tasks loops]. rewrite length_app. cbn [length].
  split.
  - apply Forall_app. split.
    + eapply Forall_impl; [exact Hts |]. cbn. intros; lia.
    + repeat constructor. lia.
  - eapply Forall_impl; [exact Hls |]. cbn. intros; lia.
Qed.

End LifecycleFacts.

Section LifecycleExtras.

Context {World : Type}.

Implicit Types (st : state World (Orchestrator World)) (t : Task World).
Implicit Types (a : addr) (o : oracle) (os : list oracle).

(** X3.  [start] creates its loops once.  A [start] on a stopped scheduler
    logs, creates one loop per registered task and returns nothing; the
    world is untouched.  With a task registered it is left waiting with
    [running] true, and a second [start] only logs a warning: no loop is
    created, the instance and the world stay as they are.  With no task
    registered there is nothing to wait for: [start] runs to its end, which
    clears [running], so a second [start] does not warn but starts again.
    A [start] on a running scheduler only warns.  When the wait is over,
    the end of [start] clears [running] whatever happened, logs a
    cancellation and lets any other exception through. *)
Theorem start_twice_creates_loops_once st :
  let st1 := after st start in
  let r2 := start st1 in
  snd (start st) = Returned tt
  /\ world st1 = world st
  /\ (running (self st) = false ->
      loops (self st1) = loops (self st) ++ tasks (self st)
      /\ trace st1 = trace st ++ [Logged INFO StartingOrchestrator]
      /\ heap (self st1) = heap (self st)
      /\ tasks (self st1) = tasks (self st))
  /\ (running (self st) = true ->
      st1 = mkState (self st) (world st) (trace st ++ [Logged WARNING AlreadyRunning]))
  /\ (running (self st) = true \/ tasks (self st) <> [] ->
      running (self st1) = true
      /\ r2 = (mkState (self st1) (world st1)
                 (trace st1 ++ [Logged WARNING AlreadyRunning]), Returned tt))
  /\ (running (self st) = false -> tasks (self st) = [] ->
      running (self st1) = false
      /\ loops (self st1) = loops (self st)
      /\ r2 = (mkState (self st1) (world st1)
                 (trace st1 ++ [Logged INFO StartingOrchestrator]), Returned tt))
  /\ (forall g,
        start_finish g st1 =
          (mkState (set_running false (self st1)) (world st1)
             (trace st1 ++ match g with
                           | Cancelled => [Logged INFO OrchestratorCancelled]
                           | _ => []
                           end),
           match g with Failed e => Raised e | _ => Returned tt end)).
Proof.
  intros st1 r2. subst r2. subst st1. unfold after.
  rewrite (start_run st).
  destruct st as [[vf ts r h ls] w tr]. cbn [self world trace running tasks loops heap].
  destruct r.
  - cbn [fst snd self world trace].
    split; [reflexivity |]. split; [reflexivity |].
    split; [discriminate |]. split; [reflexivity |].
    split; [intros _; split; reflexivity |].
    split; [discriminate |].
    intros g. apply start_finish_run.
  - cbn [fst snd self world trace].
    split; [reflexivity |]. split; [reflexivity |].
    split; [intros _; repeat split |]. split; [discriminate |].
    split.
    + intros [Hr | Hts]; [discriminate |].
      destruct ts as [| a ts]; [contradiction |]. split; reflexivity.
    + split.
      * intros _ ->. cbn. rewrite !app_nil_r. repeat split.
      * intros g. apply start_finish_run.
Qed.

(** X4.  With a task registered, [stop] followed by [start] before the
    loops have woken up leaves the old loops in place and adds a second
    loop per task; the three calls only log.  The old loops find [running]
    true again when they wake, so from then on an enabled task is run by two
    loops: a tick of either calls the action on the world, and stamps and
    counts the task when the action returns. *)
Theorem restart_before_wakeup_doubles_loops st :
  running (self st) = false ->
  tasks (self st) <> [] ->
  let st3 := after (after (after st start) stop) start in
  loops (self st3) = loops (self st) ++ tasks (self st) ++ tasks (self st)
  /\ running (self st3) = true
  /\ heap (self st3) = heap (self st)
  /\ (forall a t o,
       a ∈ tasks (self st) ->
       heap (self st) !! a = Some t ->
       enabled t = true ->
       exists tail, trace (fst (_task_loop [o] a st3)) = trace st3 ++ launch t ++ tail)
  /\ world st3 = world st
  /\ trace st3 = trace st ++ [Logged INFO StartingOrchestrator;
                              Logged INFO StoppingOrchestrator;
                              Logged INFO StartingOrchestrator]
  /\ (forall a t o os,
       a ∈ tasks (self st) ->
       heap (self st) !! a = Some t ->
       enabled t = true ->
       _task_loop (o :: os) a st3 =
         match body (callback t) tt (world st) with
         | (w', None) =>
             _task_loop os a
               (mkState (set_heap (<[a := completed (now_ o) t]> (heap (self st)))
                           (self st3))
                  w'
                  (trace st3 ++ launch t
                   ++ [Logged INFO (TaskCompleted (name t) (run_count t + 1))]
                   ++ nap (variance_factor (self st)) o t))
         | (w', Some e) =>
             if derives_Exception e
             then _task_loop os a
                    (mkState (self st3) w'
                       (trace st3 ++ launch t ++ [Logged ERROR (TaskFailed (name t) e)]
                        ++ nap (variance_factor (self st)) o t))
             else (mkState (self st3) w' (trace st3 ++ launch t), Raised e)
         end).
Proof.
  intros E Hts st3.
  assert (H3 : st3
               = mkState (set_loops (loops (self st) ++ tasks (self st) ++ tasks (self st))
                            (set_running true (self st)))
                   (world st)
                   (trace st ++ [Logged INFO StartingOrchestrator;
                                 Logged INFO StoppingOrchestrator;
                                 Logged INFO StartingOrchestrator])).
  { unfold st3, after. rewrite (start_run st), E. cbn [fst].
    rewrite stop_run. cbn [fst]. rewrite start_run. cbn [self running set_running fst].
    cbn [set_loops set_running loops tasks variance_factor heap running world trace].
    destruct (tasks (self st)) as [| a0 ts0]; [contradiction |].
    now rewrite <- !app_assoc. }
  split; [now rewrite H3 |]. split; [now rewrite H3 |]. split; [now rewrite H3 |].
  split.
  { intros a t o _ Ha He. apply loop_iteration_launches; [| | exact He]; now rewrite H3. }
  split; [now rewrite H3 |]. split; [now rewrite H3 |].
  intros a t o os _ Ha He.
  assert (Hr3 : running (self st3) = true) by now rewrite H3.
  assert (Ha3 : heap (self st3) !! a = Some t) by now rewrite H3.
  rewrite (loop_tick_enabled st3 o os a t Hr3 Ha3 He).
  now rewrite H3.
Qed.

(** X5.  After [stop] every loop ends at its next wake-up: it finds
    [running] false and leaves without calling the action, without logging
    and without sleeping again, however many ticks were still to come.
    [stop] itself only logs and clears the flag. *)
Theorem stop_ends_every_loop st o os a :
  let st' := after st stop in
  _task_loop (o :: os) a st' = (st', Returned Exited)
  /\ trace st' = trace st ++ [Logged INFO StoppingOrchestrator]
  /\ world st' = world st
  /\ status_tasks (get_status (self st')) = status_tasks (get_status (self st))
  /\ status_running (get_status (self st')) = false.
Proof.
  intros st'. split; [| repeat split].
  apply loop_stopped; [reflexivity | discriminate].
Qed.

(** X6.  [add_task] never creates a loop: the new task is listed by
    [get_status] after the tasks that were there, but no loop holds it, so
    a task added while the scheduler runs is not executed by any of the
    running loops. *)
Theorem add_task_creates_no_loop st nm cb iv en :
  well_formed (self st) ->
  let st' := after st (add_task nm cb iv en) in
  let new := length (heap (self st)) in
  loops (self st') = loops (self st)
  /\ (new ∉ loops (self st'))
  /\ tasks (self st') = tasks (self st) ++ [new]
  /\ status_tasks (get_status (self st'))
     = status_tasks (get_status (self st)) ++ [mkTaskStatus nm en iv None 0]
  /\ running (self st') = running (self st)
  /\ well_formed (self st').
Proof.
  intros Hwf st' new.
  split; [reflexivity |].
  split.
  { destruct Hwf as [_ Hls]. rewrite Forall_forall in Hls.
    intros Hin. apply Hls in Hin. unfold new in Hin. lia. }
  split; [reflexivity |].
  split; [exact (add_task_status st nm cb iv en Hwf) |].
  split; [reflexivity |].
  exact (add_task_well_formed st nm cb iv en Hwf).
Qed.

(** X7.  While the scheduler runs, [n] ticks of the loop of an enabled task
    whose action returns give [n] calls of the action, add [n] to
    [run_count] and leave in [last_run] the time read at the last tick. *)
Theorem quiet_ticks_are_all_counted st os a t :
  running (self st) = true ->
  heap (self st) !! a = Some t ->
  enabled t = true ->
  quiet (callback t) ->
  exists st',
    _task_loop os a st = (st', Returned Suspended)
    /\ heap (self st') !! a
       = Some (mkTask (name t) (callback t) (interval_seconds t) (enabled t)
                      (last_tick os (last_run t))
                      (run_count t + Z.of_nat (length os)))
    /\ world st' = ran_times (length os) (callback t) (world st)
    /\ calls (trace st') = calls (trace st) + length os.
Proof.
  intros Hr Ha He Hq.
  destruct (loop_quiet_ticks os st a t Hr Ha He Hq) as (st' & H1 & H2 & H3 & H4 & _).
  exists st'. repeat (split; [assumption |]). assumption.
Qed.

(** X8.  Whatever the action does, a task loop writes nothing but
    [last_run] and [run_count] of its own task: after any number of ticks
    the task has its name, callback, interval and flag, its [run_count] has
    not gone down and has grown by at most the number of ticks, every other
    task object is untouched, and the registry and the loops are the
    same. *)
Theorem loop_writes_only_its_task st os a t :
  heap (self st) !! a = Some t ->
  let st' := fst (_task_loop os a st) in
  exists t',
    heap (self st') !! a = Some t'
    /\ name t' = name t
    /\ callback t' = callback t
    /\ interval_seconds t' = interval_seconds t
    /\ enabled t' = enabled t
    /\ (run_count t <= run_count t' <= run_count t + Z.of_nat (length os))%Z
    /\ (forall b, b <> a -> heap (self st') !! b = heap (self st) !! b)
    /\ tasks (self st') = tasks (self st)
    /\ loops (self st') = loops (self st).
Proof.
  intros Ha st'.
  destruct (loop_frame os st a t Ha) as (t' & H1 & H2 & H3 & H4 & H5 & H6 & H7 & H8 & H9 & _).
  exists t'. repeat (split; [assumption |]). assumption.
Qed.

(** X9.  [except Exception] lets through what is not an [Exception]
    ([asyncio.CancelledError], [KeyboardInterrupt]): raised by the action of
    an enabled task it leaves [_run_task] and ends the loop.  Nothing is
    logged about it, the task is not counted, the loop does not sleep and
    the ticks that were to come do not happen. *)
Theorem base_exception_ends_the_loop st o os a t w' e :
  running (self st) = true ->
  heap (self st) !! a = Some t ->
  enabled t = true ->
  body (callback t) tt (world st) = (w', Some e) ->
  derives_Exception e = false ->
  _task_loop (o :: os) a st = (mkState (self st) w' (trace st ++ launch t), Raised e).
Proof.
  intros Hr Ha He Hb Hex.
  now rewrite (loop_unfold _ _ _ _ Hr), (loop_body_propagates _ _ _ _ _ _ Ha He Hb Hex).
Qed.

End LifecycleExtras.

Lemma restart_before_wakeup_doubles_loops_witness :
  let st := after fresh (add_task "x" post 5 true) in
  running (self st) = false
  /\ tasks (self st) <> []
  /\ loops (self (after (after (after st start) stop) start)) = [0; 0]
  /\ running (self (after (after (after st start) stop) start)) = true.
Proof.
  intros st.
  assert (H : running (self st) = false) by reflexivity.
  assert (Ht : tasks (self st) <> []) by discriminate.
  split; [exact H |]. split; [exact Ht |].
  split; [exact (proj1 (restart_before_wakeup_doubles_loops st H Ht)) |].
  exact (proj1 (proj2 (restart_before_wakeup_doubles_loops st H Ht))).
Defined.

Lemma add_task_creates_no_loop_witness :
  well_formed (self posting_started)
  /\ loops (self (after posting_started (add_task "y" post 7 true))) = [0]
  /\ (1 ∉ loops (self (after posting_started (add_task "y" post 7 true)))).
Proof.
  assert (H : well_formed (self posting_started)).
  { split; repeat constructor. }
  split; [exact H |].
  split; [exact (proj1 (add_task_creates_no_loop posting_started "y" post 7 true H)) |].
  exact (proj1 (proj2 (add_task_creates_no_loop posting_started "y" post 7 true H))).
Defined.

Lemma post_quiet : quiet post.
Proof. intros args w. reflexivity. Qed.

Lemma quiet_ticks_are_all_counted_witness :
  let st := posting_started in
  let t := mkTask "x" post 5 true None 0 in
  let os := [tick 100 (1 # 2); tick 107 (1 # 3); tick 111 (1 # 4)] in
  running (self st) = true
  /\ heap (self st) !! 0 = Some t
  /\ enabled t = true
  /\ quiet (callback t)
  /\ exists st',
       _task_loop os 0 st = (st', Returned Suspended)
       /\ heap (self st') !! 0 = Some (mkTask "x" post 5 true (Some 111%Z) 3)
       /\ world st' = 3
       /\ calls (trace st') = calls (trace st) + 3.
Proof.
  intros st t os.
  assert (H1 : running (self st) = true) by reflexivity.
  assert (H2 : heap (self st) !! 0 = Some t) by reflexivity.
  assert (H3 : enabled t = true) by reflexivity.
  split; [exact H1 |]. split; [exact H2 |]. split; [exact H3 |].
  split; [exact post_quiet |].
  exact (quiet_ticks_are_all_counted st os 0 t H1 H2 H3 post_quiet).
Defined.

Lemma loop_writes_only_its_task_witness :
  let st := failing_started in
  let t := mkTask "x" failing_post 5 true None 0 in
  heap (self st) !! 0 = Some t
  /\ exists t',
       heap (self (fst (_task_loop [tick 100 (1 # 2)] 0 st))) !! 0 = Some t'
       /\ name t' = "x".
Proof.
  intros st t.
  assert (H : heap (self st) !! 0 = Some t) by reflexivity.
  split; [exact H |].
  destruct (loop_writes_only_its_task st [tick 100 (1 # 2)] 0 t H) as (t' & H1 & H2 & _).
  exists t'. split; [exact H1 | exact H2].
Defined.

Lemma base_exception_ends_the_loop_witness :
  let st := cancelling_started in
  let t := mkTask "x" cancelling_post 5 true None 0 in
  running (self st) = true
  /\ heap (self st) !! 0 = Some t
  /\ enabled t = true
  /\ body (callback t) tt (world st) = (0, Some cancelled)
  /\ derives_Exception cancelled = false
  /\ _task_loop [tick 100 (1 # 2); tick 200 (1 # 2)] 0 st
     = (mkState (self st) 0 (trace st ++ launch t), Raised cancelled).
Proof.
  intros st t.
  assert (H1 : running (self st) = true) by reflexivity.
  assert (H2 : heap (self st) !! 0 = Some t) by reflexivity.
  assert (H3 : enabled t = true) by reflexivity.
  assert (H4 : body (callback t) tt (world st) = (0, Some cancelled)) by reflexivity.
  assert (H5 : derives_Exception cancelled = false) by reflexivity.
  split; [exact H1 |]. split; [exact H2 |]. split; [exact H3 |].
  split; [exact H4 |]. split; [exact H5 |].
  exact (base_exception_ends_the_loop st (tick 100 (1 # 2)) [tick 200 (1 # 2)] 0 t
           0 cancelled H1 H2 H3 H4 H5).
Defined.

Section RoundTripFacts.

Context {World : Type}.

Implicit Types (st : state World (Orchestrator World)) (t : Task World).

Lemma remove_task_status st nm :
  status_tasks (get_status (self (fst (remove_task nm st))))
  = List.filter (fun s => negb (String.eqb (status_name s) nm))
                (status_tasks (get_status (self st))).
Proof.
  rewrite remove_task_run. cbn [fst self].
  exact (map_filter_comm (fun a => status_of (heap (self st) !!! a))
           (fun s => negb (String.eqb (status_name s) nm)) (tasks (self st))).
Qed.

End RoundTripFacts.

Section RoundTripExtras.

Context {World : Type}.

Implicit Types (st : state World (Orchestrator World)) (t : Task World).

(** X10.  [add_task] followed by [remove_task] of the same name leaves in
    [get_status] the tasks of the other names, in their order; when the name
    was not registered before, [get_status] is back to what it was. *)
Theorem add_then_remove_restores_registry st nm cb iv en :
  well_formed (self st) ->
  let st2 := after (after st (add_task nm cb iv en)) (remove_task nm) in
  status_tasks (get_status (self st2))
  = List.filter (fun s => negb (String.eqb (status_name s) nm))
                (status_tasks (get_status (self st)))
  /\ ((forall s, s ∈ status_tasks (get_status (self st)) -> status_name s <> nm) ->
      get_status (self st2) = get_status (self st)).
Proof.
  intros Hwf st2.
  assert (H : status_tasks (get_status (self st2))
              = List.filter (fun s => negb (String.eqb (status_name s) nm))
                            (status_tasks (get_status (self st)))).
  { unfold st2, after. rewrite remove_task_status, (add_task_status _ _ _ _ _ Hwf).
    rewrite List.filter_app. cbn [List.filter status_name].
    now rewrite String.eqb_refl, app_nil_r. }
  split; [exact H |].
  intros Habs.
  assert (Hs : status_tasks (get_status (self st2)) = status_tasks (get_status (self st))).
  { rewrite H. apply filter_all. intros s Hs.
    apply negb_true_iff, String.eqb_neq, Habs, Hs. }
  destruct (get_status (self st2)) as [r2 l2] eqn:E2.
  destruct (get_status (self st)) as [r l] eqn:E.
  cbn [status_tasks] in Hs. subst l2. f_equal.
  change r2 with (status_running (mkStatus r2 l)). rewrite <- E2.
  change r with (status_running (mkStatus r l)). rewrite <- E. reflexivity.
Qed.

End RoundTripExtras.

Section JitterExtras.

Context {World : Type}.

Open Scope Q_scope.

Lemma max_upper (a b : Q) : b <= max_ a b.
Proof.
  destruct (max_cases a b) as [[H ->] | [H ->]]; [exact H | apply Qle_refl].
Qed.

(** X11.  For a non-negative interval and a non-negative variance factor
    the next sleep stays in the band the factor allows: at least
    [base_interval * (1 - variance_factor)] and at most the larger of one
    second and [base_interval * (1 + variance_factor)].  With a factor of
    zero there is no jitter: an interval of at least one second is slept
    as it is. *)
Theorem next_run_within_variance_band (vf u : Q) (task : Task World) :
  0 <= u <= 1 ->
  0 <= vf ->
  (0 <= interval_seconds task)%Z ->
  let base_interval := inject_Z (interval_seconds task) in
  let next_run := _calculate_next_run vf u task in
  base_interval * (1 - vf) <= next_run
  /\ next_run <= max_ 1 (base_interval * (1 + vf))
  /\ (vf == 0 -> 1 <= base_interval -> next_run == base_interval).
Proof.
  intros [Hu0 Hu1] Hvf Hi base_interval next_run.
  assert (Hb : 0 <= base_interval).
  { unfold base_interval. change 0 with (inject_Z 0). now rewrite <- Zle_Qle. }
  set (variance := base_interval * vf).
  set (adjustment := uniform u (- variance) variance).
  assert (Hv : 0 <= variance) by (unfold variance; nra).
  assert (Ha : - variance <= adjustment <= variance).
  { unfold adjustment, uniform. split; nra. }
  assert (Hdef : next_run = max_ 1 (base_interval + adjustment)) by reflexivity.
  split.
  { rewrite Hdef. pose proof (max_upper 1 (base_interval + adjustment)).
    unfold variance in *. lra. }
  split.
  { rewrite Hdef.
    pose proof (max_lower 1 (base_interval * (1 + vf))).
    pose proof (max_upper 1 (base_interval * (1 + vf))).
    destruct (max_cases 1 (base_interval + adjustment)) as [[_ ->] | [_ ->]];
      [assumption | unfold variance in *; lra]. }
  intros H0 H1. rewrite Hdef.
  assert (Hz : adjustment == 0).
  { unfold adjustment, uniform, variance. rewrite H0. ring. }
  destruct (max_cases 1 (base_interval + adjustment)) as [[H ->] | [_ ->]]; lra.
Qed.

(** X12.  A task registered with an interval of zero or less is woken every
    second: for a variance factor between 0 and 1 the computed sleep is
    exactly the floor of one second, whatever the draw. *)
Theorem nonpositive_interval_sleeps_one_second (vf u : Q) (task : Task World) :
  0 <= u <= 1 ->
  0 <= vf <= 1 ->
  (interval_seconds task <= 0)%Z ->
  _calculate_next_run vf u task = 1.
Proof.
  intros [Hu0 Hu1] [Hv0 Hv1] Hi.
  set (base_interval := inject_Z (interval_seconds task)).
  assert (Hb : base_interval <= 0).
  { unfold base_interval. change 0 with (inject_Z 0). now rewrite <- Zle_Qle. }
  unfold _calculate_next_run. fold base_interval. unfold max_.
  assert (H : base_interval + uniform u (- (base_interval * vf)) (base_interval * vf) <= 1).
  { unfold uniform.
    assert (Hk : 0 <= 1 - vf + 2 * vf * u) by nra.
    assert (Hp : base_interval * (1 - vf + 2 * vf * u) <= 0) by nra.
    lra. }
  apply Qle_bool_iff in H. now rewrite H.
Qed.

End JitterExtras.

Lemma add_then_remove_restores_registry_witness :
  well_formed (self two_tasks)
  /\ (forall s, s ∈ status_tasks (get_status (self two_tasks)) -> status_name s <> "z")
  /\ get_status (self (after (after two_tasks (add_task "z" post 30 true)) (remove_task "z")))
     = get_status (self two_tasks).
Proof.
  assert (H : well_formed (self two_tasks)).
  { split; repeat constructor. }
  assert (Habs : forall s, s ∈ status_tasks (get_status (self two_tasks))
                           -> status_name s <> "z").
  { intros s Hs. cbn in Hs.
    apply elem_of_cons in Hs as [-> | Hs]; [discriminate |].
    apply list_elem_of_singleton in Hs as ->. discriminate. }
  split; [exact H |]. split; [exact Habs |].
  exact (proj2 (add_then_remove_restores_registry two_tasks "z" post 30 true H) Habs).
Defined.

Lemma next_run_within_variance_band_witness :
  (0 <= 1 # 4 <= 1)%Q
  /\ (0 <= 3 # 10)%Q
  /\ (0 <= 60)%Z
  /\ (inject_Z 60 * (1 - (3 # 10))
      <= _calculate_next_run (3 # 10) (1 # 4) (mkTask "x" post 60 true None 0))%Q.
Proof.
  assert (H1 : (0 <= 1 # 4 <= 1)%Q) by (split; discriminate).
  assert (H2 : (0 <= 3 # 10)%Q) by discriminate.
  assert (H3 : (0 <= 60)%Z) by lia.
  split; [exact H1 |]. split; [exact H2 |]. split; [exact H3 |].
  exact (proj1 (next_run_within_variance_band (3 # 10) (1 # 4)
                  (mkTask "x" post 60 true None 0) H1 H2 H3)).
Defined.

Lemma nonpositive_interval_sleeps_one_second_witness :
  (0 <= 1 # 4 <= 1)%Q
  /\ (0 <= 1 # 5 <= 1)%Q
  /\ (-5 <= 0)%Z
  /\ _calculate_next_run (1 # 5) (1 # 4) (mkTask "y" post (-5) true None 0) = 1%Q.
Proof.
  assert (H1 : (0 <= 1 # 4 <= 1)%Q) by (split; discriminate).
  assert (H2 : (0 <= 1 # 5 <= 1)%Q) by (split; discriminate).
  assert (H3 : (-5 <= 0)%Z) by lia.
  split; [exact H1 |]. split; [exact H2 |]. split; [exact H3 |].
  exact (nonpositive_interval_sleeps_one_second (1 # 5) (1 # 4)
           (mkTask "y" post (-5) true None 0) H1 H2 H3).
Defined.

(** ** More on the dispatcher: order, empty and long keywords, case *)

Section MatchingFacts.

Lemma string_length_append (s1 s2 : string) :
  String.length (s1 ++ s2)%string = String.length s1 + String.length s2.
Proof.
  induction s1 as [| c s1 IH]; [reflexivity |].
  change (S (String.length (s1 ++ s2)%string) = S (String.length s1 + String.length s2)).
  now rewrite IH.
Qed.

Lemma contains_empty_keyword (text : string) : contains text "" = true.
Proof.
  apply contains_spec. now exists "", text.
Qed.

Lemma lower_append (s1 s2 : string) :
  lower (s1 ++ s2)%string = (lower s1 ++ lower s2)%string.
Proof.
  induction s1 as [| c s1 IH]; [reflexivity |].
  change (String (lower_ascii c) (lower (s1 ++ s2)%string)
          = String (lower_ascii c) (lower s1 ++ lower s2)%string).
  now rewrite IH.
Qed.

Lemma contains_lower (text keyword : string) :
  contains text keyword = true -> contains (lower text) (lower keyword) = true.
Proof.
  intros (pre & post & H)%contains_spec. apply contains_spec.
  exists (lower pre), (lower post). now rewrite H, !lower_append.
Qed.

Lemma lower_ascii_idempotent (c : ascii) : lower_ascii (lower_ascii c) = lower_ascii c.
Proof.
  destruct c as [[] [] [] [] [] [] [] []]; reflexivity.
Qed.

Lemma lower_idempotent (s : string) : lower (lower s) = lower s.
Proof.
  induction s as [| c s IH]; [reflexivity |]. cbn [lower].
  now rewrite lower_ascii_idempotent, IH.
Qed.

End MatchingFacts.

Section DispatcherExtras.

Context {World : Type}.

Implicit Types (st : state World (TriggerManager World)) (t : Trigger World).
Implicit Types (cb : Callable World (string * context)) (m text : string) (c : context).

(** X13.  A message that matches a keyword rule on one keyword and comes
    with a context marked as a mention, dispatched to a manager holding the
    keyword rule and then a mention rule, has both callbacks executed once
    each, the keyword callback first and the mention callback on the world
    the first one left, and [check_triggers] returns true. *)
Theorem keyword_and_mention_both_fire_once st kws cs cb1 cb2 m c kw :
  triggers (self st) = [keyword_trigger kws cs cb1; mention_trigger cb2] ->
  quiet cb1 ->
  quiet cb2 ->
  matching_keywords kws cs m = [kw] ->
  is_mention c = true ->
  check_triggers m c st =
    (mkState (self st)
       (fst (body cb2 (m, c) (fst (body cb1 (m, c) (world st)))))
       (trace st ++ hit_events cb1 kw ++ mention_events cb2),
     Returned true).
Proof.
  intros Hts Hq1 Hq2 Hk Hm.
  assert (Hall : forall t, t ∈ triggers (self st) -> quiet (trigger_callback t)).
  { intros t Ht. rewrite Hts in Ht.
    apply elem_of_cons in Ht as [-> | Ht]; [exact Hq1 |].
    apply list_elem_of_singleton in Ht as ->. exact Hq2. }
  rewrite check_triggers_unfold, (rules_fold_quiet _ _ _ _ _ Hall), Hts.
  unfold dispatched.
  cbn [fold_left flat_map firing_events invocations fires existsb trigger_callback].
  rewrite Hk, Hm. cbn [length flat_map called_times Nat.iter app].
  rewrite orb_true_r. reflexivity.
Qed.

(** X14.  The keywords are not checked at registration, and the empty
    string is a substring of every text: a keyword rule registered with an
    empty string among its keywords fires on every message, the empty
    message included, whatever the case setting. *)
Theorem empty_keyword_fires_on_every_message st kws cb cs m c :
  "" ∈ kws ->
  (forall t, t ∈ triggers (self st) -> quiet (trigger_callback t)) ->
  quiet cb ->
  let st' := after st (add_keyword_trigger kws cb cs) in
  fires m c (keyword_trigger (if cs then kws else map lower kws) cs cb) = true
  /\ snd (check_triggers m c st') = Returned true
  /\ calls (trace st') < calls (trace (after st' (check_triggers m c))).
Proof.
  intros Hin Hq Hcb st'.
  set (t := keyword_trigger (if cs then kws else map lower kws) cs cb).
  assert (Hstored : "" ∈ (if cs then kws else map lower kws)).
  { destruct cs; [exact Hin |].
    apply list_elem_of_In in Hin. apply list_elem_of_In.
    exact (in_map lower kws "" Hin). }
  assert (Hf : fires m c t = true).
  { cbn [fires t]. apply existsb_exists. exists "".
    split; [now apply list_elem_of_In | apply contains_empty_keyword]. }
  assert (Hts : triggers (self st') = triggers (self st) ++ [t]) by reflexivity.
  assert (Hall : forall t', t' ∈ triggers (self st') -> quiet (trigger_callback t')).
  { intros t' Ht'. rewrite Hts in Ht'. apply elem_of_app in Ht' as [Ht' | Ht'].
    - now apply Hq.
    - apply list_elem_of_singleton in Ht' as ->. exact Hcb. }
  assert (Hex : existsb (fires m c) (triggers (self st')) = true).
  { apply existsb_exists. exists t. split; [| exact Hf].
    rewrite Hts. apply in_or_app. right. now left. }
  split; [exact Hf |].
  unfold after. rewrite check_triggers_unfold, (rules_fold_quiet _ _ _ _ _ Hall).
  cbn [fst snd trace]. split; [now rewrite Hex |].
  rewrite calls_app, Hts, flat_map_app, calls_app.
  cbn [flat_map firing_events t]. rewrite app_nil_r, calls_hit_events.
  assert (0 < length (matching_keywords (if cs then kws else map lower kws) cs m)).
  { pose proof (existsb_filter_length
                  (contains (searched_text cs m)) (if cs then kws else map lower kws)) as E.
    cbn [fires t] in Hf. rewrite Hf in E. symmetry in E.
    apply negb_true_iff, Nat.eqb_neq in E. unfold matching_keywords. lia. }
  lia.
Qed.

(** X15.  A keyword longer than the searched text is never found in it; on
    the empty message only the empty keyword is found. *)
Theorem long_keyword_never_matches (text keyword : string) :
  (String.length text < String.length keyword -> contains text keyword = false)
  /\ (contains "" keyword = true <-> keyword = "").
Proof.
  split.
  - intros Hlen. destruct (contains text keyword) eqn:E; [| reflexivity].
    apply contains_spec in E as (pre & post & E).
    rewrite E, !string_length_append in Hlen. lia.
  - split.
    + intros (pre & post & E)%contains_spec.
      destruct keyword as [| k keyword]; [reflexivity |].
      apply (f_equal String.length) in E. rewrite !string_length_append in E.
      cbn [String.length] in E. lia.
    + intros ->. apply contains_empty_keyword.
Qed.

(** X16.  Matching without regard to case finds whatever exact matching
    finds: when a case-sensitive rule fires on a message, the rule
    registered from the same keywords with [case_sensitive=False] fires on
    it too, and it fires alike on all messages that differ only by case.
    Storing lowered keywords is stable: lowering twice is lowering once. *)
Theorem insensitive_rule_matches_more st kws cb cb' m c :
  let st' := after st (add_keyword_trigger kws cb' false) in
  let stored := keyword_trigger (map lower kws) false cb' in
  triggers (self st') = triggers (self st) ++ [stored]
  /\ (fires m c (keyword_trigger kws true cb) = true -> fires m c stored = true)
  /\ (forall m', lower m' = lower m -> fires m' c stored = fires m c stored)
  /\ map lower (map lower kws) = map lower kws.
Proof.
  intros st' stored. split; [reflexivity |]. split.
  - cbn [fires stored searched_text]. rewrite !existsb_exists.
    intros (kw & Hin & Hc). exists (lower kw).
    split; [now apply in_map | now apply contains_lower].
  - split.
    + intros m' Hm. cbn [fires stored searched_text]. now rewrite Hm.
    + rewrite map_map. apply map_ext. intros kw. apply lower_idempotent.
Qed.

End DispatcherExtras.

Lemma shouting_quiet : quiet shouting.
Proof. intros args w. reflexivity. Qed.

Lemma keyword_and_mention_both_fire_once_witness :
  triggers (self both_kinds)
  = [keyword_trigger ["gm"; "wagmi"] false reply; mention_trigger shouting]
  /\ quiet reply
  /\ quiet shouting
  /\ matching_keywords ["gm"; "wagmi"] false "GM fren" = ["gm"]
  /\ is_mention mentioned = true
  /\ check_triggers "GM fren" mentioned both_kinds =
       (mkState (self both_kinds) 11
          (trace both_kinds ++ hit_events reply "gm" ++ mention_events shouting),
        Returned true).
Proof.
  assert (H1 : triggers (self both_kinds)
               = [keyword_trigger ["gm"; "wagmi"] false reply; mention_trigger shouting])
    by reflexivity.
  assert (H4 : matching_keywords ["gm"; "wagmi"] false "GM fren" = ["gm"]) by reflexivity.
  assert (H5 : is_mention mentioned = true) by reflexivity.
  split; [exact H1 |]. split; [exact reply_quiet |]. split; [exact shouting_quiet |].
  split; [exact H4 |]. split; [exact H5 |].
  exact (keyword_and_mention_both_fire_once both_kinds ["gm"; "wagmi"] false reply shouting
           "GM fren" mentioned "gm" H1 reply_quiet shouting_quiet H4 H5).
Defined.

Lemma empty_keyword_fires_on_every_message_witness :
  "" ∈ ["gm"; ""]
  /\ (forall t, t ∈ triggers (self (init_triggers 0)) -> quiet (trigger_callback t))
  /\ quiet reply
  /\ snd (check_triggers "" no_context
            (after (init_triggers 0) (add_keyword_trigger ["gm"; ""] reply true)))
     = Returned true.
Proof.
  assert (H1 : "" ∈ ["gm"; ""]) by (apply list_elem_of_further, list_elem_of_here).
  assert (H2 : forall t : Trigger nat,
             t ∈ triggers (self (init_triggers 0)) -> quiet (trigger_callback t)).
  { intros t Ht. cbn in Ht. now apply elem_of_nil in Ht. }
  split; [exact H1 |]. split; [exact H2 |]. split; [exact reply_quiet |].
  exact (proj1 (proj2 (empty_keyword_fires_on_every_message (init_triggers 0) ["gm"; ""]
                         reply true "" no_context H1 H2 reply_quiet))).
Defined.

Lemma long_keyword_never_matches_witness :
  String.length "gm" < String.length "wagmi" /\ contains "gm" "wagmi" = false.
Proof.
  assert (H : String.length "gm" < String.length "wagmi") by (cbn; lia).
  split; [exact H |].
  exact (proj1 (long_keyword_never_matches "gm" "wagmi") H).
Defined.

Lemma insensitive_rule_matches_more_witness :
  fires "say GM" no_context (keyword_trigger ["GM"] true reply) = true
  /\ fires "say GM" no_context (keyword_trigger (map lower ["GM"]) false greet) = true.
Proof.
  assert (H : fires "say GM" no_context (keyword_trigger ["GM"] true reply) = true)
    by reflexivity.
  split; [exact H |].
  exact (proj1 (proj2 (insensitive_rule_matches_more (init_triggers 0) ["GM"] reply greet
                         "say GM" no_context)) H).
Defined.

(** ** The runner: registration from the configuration *)

Section RunnerFacts.

Context {World : Type}.

Implicit Types (r : AgentRunner World) (c : task_config).

Lemma setup_orchestrator_step r c (st : state World (Orchestrator World)) :
  (let! _ := (if negb (truthy (config_enabled c)) then ret tt
              else
                if String.eqb (config_name c) "auto_post" then
                  add_task "auto_post" (auto_post_task r) (config_interval_seconds c) true
                else if String.eqb (config_name c) "check_mentions" then
                  add_task "check_mentions" (check_mentions_task r)
                           (config_interval_seconds c) true
                else if String.eqb (config_name c) "save_memory" then
                  add_task "save_memory" (save_memory_task r)
                           (config_interval_seconds c) true
                else ret tt) in ret tt) st
  = if selected c
    then add_task (config_name c) (task_method r (config_name c))
                  (config_interval_seconds c) true st
    else (st, Returned tt).
Proof.
  unfold selected, known_task, task_method.
  destruct (truthy (config_enabled c)); cbn [negb andb]; [| reflexivity].
  destruct (String.eqb (config_name c) "auto_post") eqn:E1.
  { apply String.eqb_eq in E1. rewrite E1. reflexivity. }
  destruct (String.eqb (config_name c) "check_mentions") eqn:E2.
  { apply String.eqb_eq in E2. rewrite E2. reflexivity. }
  destruct (String.eqb (config_name c) "save_memory") eqn:E3.
  { apply String.eqb_eq in E3. rewrite E3. reflexivity. }
  reflexivity.
Qed.

Lemma setup_orchestrator_cons r c cfgs (st : state World (Orchestrator World)) :
  _setup_orchestrator r (c :: cfgs) st
  = if selected c
    then _setup_orchestrator r cfgs
           (fst (add_task (config_name c) (task_method r (config_name c))
                          (config_interval_seconds c) true st))
    else _setup_orchestrator r cfgs st.
Proof.
  unfold _setup_orchestrator. cbn [for_each]. unfold bind at 1.
  pose proof (setup_orchestrator_step r c st) as H.
  unfold bind at 1 in H. unfold ret at 2 in H.
  match type of H with
  | match ?x with _ => _ end = _ =>
      match goal with |- match ?y with _ => _ end = _ => change y with x end;
      destruct x as [s1 [[] | e]] eqn:E
  end.
  - destruct (selected c).
    + rewrite add_task_registers in H. rewrite add_task_registers. cbn [fst].
      now inversion H.
    + now inversion H.
  - destruct (selected c); [rewrite add_task_registers in H |]; discriminate.
Qed.

Lemma setup_orchestrator_registers r cfgs :
  forall st : state World (Orchestrator World),
    well_formed (self st) ->
    exists st',
      _setup_orchestrator r cfgs st = (st', Returned tt)
      /\ status_tasks (get_status (self st'))
         = status_tasks (get_status (self st))
           ++ map (fun c => mkTaskStatus (config_name c) true (config_interval_seconds c)
                                         None 0)
                  (List.filter selected cfgs)
      /\ heap (self st')
         = heap (self st) ++ map (configured_task r) (List.filter selected cfgs)
      /\ loops (self st') = loops (self st)
      /\ running (self st') = running (self st)
      /\ world st' = world st
      /\ well_formed (self st').
Proof.
  induction cfgs as [| c cfgs IH]; intros st Hwf.
  - exists st. cbn [List.filter map]. rewrite !app_nil_r. repeat split; apply Hwf.
  - rewrite setup_orchestrator_cons. cbn [List.filter].
    destruct (selected c).
    + set (st1 := fst (add_task (config_name c) (task_method r (config_name c))
                                (config_interval_seconds c) true st)).
      destruct (IH st1 (add_task_well_formed st _ _ _ _ Hwf))
        as (st' & H1 & H2 & H3 & H4 & H5 & H6 & H7).
      exists st'. split; [exact H1 |].
      split.
      { rewrite H2. unfold st1. rewrite (add_task_status st _ _ _ _ Hwf).
        now rewrite <- app_assoc. }
      split.
      { rewrite H3. unfold st1. rewrite add_task_registers. cbn [fst self heap map].
        now rewrite <- app_assoc. }
      repeat split; try assumption; apply Hwf || apply H7.
    + exact (IH st Hwf).
Qed.

End RunnerFacts.

Section RunnerExtras.

Context {World : Type}.

Implicit Types (r : AgentRunner World) (c : task_config).

(** X17.  [_setup_orchestrator] registers, in the order of the
    configuration, exactly the entries that are enabled and carry one of the
    three names it knows, each with the method of that name, its configured
    interval and the flag set; entries that are disabled or named otherwise
    are passed over in silence.  It starts nothing. *)
Theorem setup_registers_enabled_known_tasks r cfgs (st : state World (Orchestrator World)) :
  well_formed (self st) ->
  exists st',
    _setup_orchestrator r cfgs st = (st', Returned tt)
    /\ status_tasks (get_status (self st'))
       = status_tasks (get_status (self st))
         ++ map (fun c => mkTaskStatus (config_name c) true (config_interval_seconds c)
                                       None 0)
                (List.filter selected cfgs)
    /\ heap (self st')
       = heap (self st) ++ map (configured_task r) (List.filter selected cfgs)
    /\ loops (self st') = loops (self st)
    /\ running (self st') = running (self st)
    /\ world st' = world st.
Proof.
  intros Hwf.
  destruct (setup_orchestrator_registers r cfgs st Hwf)
    as (st' & H1 & H2 & H3 & H4 & H5 & H6 & _).
  exists st'. repeat (split; [assumption |]). assumption.
Qed.

(** X18.  With keyword and mention triggers both enabled in the
    configuration, [_setup_triggers] registers the keyword rule, matching
    without regard to case, and then the mention rule, whose handler runs
    the keyword handler.  One mention whose text holds [k] of the
    configured keywords therefore has the keyword handler's body run [k + 1]
    times in one [check_triggers]. *)
Theorem mention_with_keywords_is_handled_repeatedly r (config : triggers_config)
    (w : World) m (ctx : context) :
  truthy (enable_keyword_triggers config) = true ->
  truthy (enable_mention_triggers config) = true ->
  quiet (handle_keyword_trigger r) ->
  is_mention ctx = true ->
  let st := after (init_triggers w) (_setup_triggers r config) in
  let k := length (matching_keywords (map lower (keywords config)) false m) in
  triggers (self st)
  = [keyword_trigger (map lower (keywords config)) false (handle_keyword_trigger r);
     mention_trigger (_handle_mention_trigger r)]
  /\ snd (check_triggers m ctx st) = Returned true
  /\ world (after st (check_triggers m ctx))
     = called_times (S k) (handle_keyword_trigger r) m ctx w
  /\ calls (trace (after st (check_triggers m ctx))) = calls (trace st) + (k + 1).
Proof.
  intros Hk Hm Hq Hc st k.
  assert (Hts : triggers (self st)
                = [keyword_trigger (map lower (keywords config)) false
                     (handle_keyword_trigger r);
                   mention_trigger (_handle_mention_trigger r)]).
  { unfold st, after, _setup_triggers. rewrite Hk, Hm. reflexivity. }
  assert (Hw : world st = w).
  { unfold st, after, _setup_triggers. rewrite Hk, Hm. reflexivity. }
  assert (Hall : forall t, t ∈ triggers (self st) -> quiet (trigger_callback t)).
  { intros t Ht. rewrite Hts in Ht.
    apply elem_of_cons in Ht as [-> | Ht]; [exact Hq |].
    apply list_elem_of_singleton in Ht as ->. intros args w'. apply Hq. }
  split; [exact Hts |].
  unfold after. rewrite check_triggers_unfold, (rules_fold_quiet _ _ _ _ _ Hall), Hts.
  cbn [fst snd world trace]. unfold dispatched.
  cbn [fold_left flat_map firing_events invocations fires existsb trigger_callback].
  rewrite Hc, Hw. fold k.
  split; [now rewrite orb_true_r |].
  split; [reflexivity |].
  rewrite !calls_app, calls_hit_events. fold k. cbn. lia.
Qed.

End RunnerExtras.

(** ** The runner: the mention check *)

Section MentionCheckFacts.

Context {World : Type}.

Implicit Types (st : state World (TriggerManager World)) (t : Trigger World).
Implicit Types (cb : Callable World (string * context)) (m : string) (c : context).

Lemma fold_each_calm {A B} (f : B -> A -> M World (TriggerManager World) B)
    (l : list A) s0 :
  (forall acc x st, x ∈ l -> self st = s0 -> calm s0 (f acc x st)) ->
  forall acc st, self st = s0 -> calm s0 (fold_each l f acc st).
Proof.
  induction l as [| x l IH]; intros Hf acc st Hs.
  - split; [exact Hs | discriminate].
  - cbn [fold_each]. unfold bind.
    destruct (Hf acc x st (list_elem_of_here _ _) Hs) as [H1 H2].
    destruct (f acc x st) as [s1 [acc1 | e]]; cbn [fst snd] in *.
    + apply IH; [| exact H1]. intros acc' y st' Hy. apply Hf. now apply list_elem_of_further.
    + split; [exact H1 | exact H2].
Qed.

Lemma for_each_calm {A} (f : A -> M World (TriggerManager World) unit) (l : list A) s0 :
  (forall x st, x ∈ l -> self st = s0 -> calm s0 (f x st)) ->
  forall st, self st = s0 -> calm s0 (for_each l f st).
Proof.
  induction l as [| x l IH]; intros Hf st Hs.
  - split; [exact Hs | discriminate].
  - cbn [for_each]. unfold bind.
    destruct (Hf x st (list_elem_of_here _ _) Hs) as [H1 H2].
    destruct (f x st) as [s1 [[] | e]]; cbn [fst snd] in *.
    + apply IH; [| exact H1]. intros y st' Hy. apply Hf. now apply list_elem_of_further.
    + split; [exact H1 | exact H2].
Qed.

Lemma check_trigger_calm m c acc t st :
  tame (trigger_callback t) -> calm (self st) (check_trigger m c acc t st).
Proof.
  intros Ht. destruct t as [kws cs cb | cb]; cbn [trigger_callback] in Ht.
  - cbn [check_trigger]. apply fold_each_calm; [| reflexivity].
    intros acc' kw st' _ Hs.
    destruct (contains (searched_text cs m) kw) eqn:E.
    + unfold searched_text in E. rewrite (check_keyword_hit _ _ _ _ _ _ _ E).
      split; [exact Hs |]. cbn [snd]. intros e He.
      apply (Ht (m, c) (world st') e).
      destruct (snd (body cb (m, c) (world st'))); [now inversion He | discriminate].
    + unfold searched_text in E. rewrite (check_keyword_miss _ _ _ _ _ _ _ E).
      split; [exact Hs | discriminate].
  - destruct (is_mention c) eqn:E.
    + rewrite (mention_hit _ _ _ _ _ E). split; [reflexivity |]. cbn [snd]. intros e He.
      apply (Ht (m, c) (world st) e).
      destruct (snd (body cb (m, c) (world st))); [now inversion He | discriminate].
    + rewrite (mention_miss _ _ _ _ _ E). split; [reflexivity | discriminate].
Qed.

Lemma check_triggers_calm m c st :
  (forall t, t ∈ triggers (self st) -> tame (trigger_callback t)) ->
  calm (self st) (check_triggers m c st).
Proof.
  intros Ht. rewrite check_triggers_unfold.
  apply fold_each_calm; [| reflexivity].
  intros acc t st' Hin Hs. rewrite <- Hs. apply check_trigger_calm. now apply Ht.
Qed.

Lemma check_mentions_unfold (platforms : list (string * Adapter World)) :
  _check_mentions_task platforms = for_each platforms check_platform.
Proof. reflexivity. Qed.

Lemma dispatch_mentions_calm p (ms : list mention) st :
  (forall t, t ∈ triggers (self st) -> tame (trigger_callback t)) ->
  calm (self st)
    (for_each ms (fun mention =>
       let! _ := await (check_triggers (text mention) (mention_context p)) in ret tt) st).
Proof.
  intros Ht. apply for_each_calm; [| reflexivity].
  intros mn st' _ Hs. unfold bind, await.
  assert (Ht' : forall t, t ∈ triggers (self st') -> tame (trigger_callback t))
    by (rewrite Hs; exact Ht).
  destruct (check_triggers_calm (text mn) (mention_context p) st' Ht') as [H1 H2].
  destruct (check_triggers (text mn) (mention_context p) st') as [s1 [b | e]];
    unfold ret, calm; cbn [fst snd] in *.
  - split; [now rewrite H1 | discriminate].
  - split; [now rewrite H1 |]. intros e' He'. inversion He'; subst e'. now apply H2.
Qed.

Lemma check_platform_returns item st :
  (forall t, t ∈ triggers (self st) -> tame (trigger_callback t)) ->
  tame_adapter (snd item) ->
  exists st', check_platform item st = (st', Returned tt) /\ self st' = self st.
Proof.
  intros Ht Ha. unfold check_platform, try_except, bind, await, fetch_mentions.
  pose proof (Ha (world st)) as Hw.
  destruct (get_mentions (snd item) (world st)) as [w [ms | e]]; cbn [snd] in Hw.
  - set (st1 := mkState (self st) w (trace st)).
    destruct (dispatch_mentions_calm (fst item) ms st1 Ht) as [H1 H2].
    destruct (for_each ms _ st1) as [s2 [[] | e]]; cbn [fst snd] in *.
    + now exists s2.
    + rewrite (H2 e eq_refl). now exists s2.
  - rewrite (Hw e eq_refl). eexists. split; reflexivity.
Qed.

Lemma check_mentions_returns platforms :
  forall st,
    (forall t, t ∈ triggers (self st) -> tame (trigger_callback t)) ->
    (forall item, item ∈ platforms -> tame_adapter (snd item)) ->
    exists st', _check_mentions_task platforms st = (st', Returned tt) /\ self st' = self st.
Proof.
  rewrite check_mentions_unfold.
  induction platforms as [| item platforms IH]; intros st Ht Ha.
  - now exists st.
  - cbn [for_each]. unfold bind.
    destruct (check_platform_returns item st Ht (Ha item (list_elem_of_here _ _)))
      as (s1 & E & Hs).
    rewrite E.
    destruct (IH s1) as (s2 & E2 & Hs2).
    + now rewrite Hs.
    + intros it Hit. apply Ha. now apply list_elem_of_further.
    + exists s2. split; [exact E2 | now rewrite Hs2].
Qed.

Lemma for_each_app {Obj A} (f : A -> M World Obj unit) (l1 l2 : list A) :
  forall (s : state World Obj),
    for_each (l1 ++ l2) f s =
    match for_each l1 f s with
    | (s1, Returned _) => for_each l2 f s1
    | (s1, Raised e) => (s1, Raised e)
    end.
Proof.
  induction l1 as [| x l1 IH]; intros s; [reflexivity |].
  cbn [app for_each]. unfold bind.
  destruct (f x s) as [s1 [[] | e]]; [apply IH | reflexivity].
Qed.

(** The mentions of a platform up to the first whose dispatch raises. *)
Lemma dispatch_mentions_stops p (before later : list mention) mn st st1 st2 e :
  dispatch_mentions p before st = (st1, Returned tt) ->
  check_triggers (text mn) (mention_context p) st1 = (st2, Raised e) ->
  dispatch_mentions p (before ++ mn :: later) st = (st2, Raised e).
Proof.
  intros Hb Hc. unfold dispatch_mentions in *. rewrite for_each_app, Hb.
  cbn [for_each]. unfold bind at 1. unfold bind at 1, await at 1. now rewrite Hc.
Qed.

Lemma check_platform_unfold p (a : Adapter World) st :
  check_platform (p, a) st =
    match get_mentions a (world st) with
    | (w1, inl ms) =>
        match dispatch_mentions p ms (mkState (self st) w1 (trace st)) with
        | (st2, Raised e) =>
            if derives_Exception e then (st2, Returned tt) else (st2, Raised e)
        | r => r
        end
    | (w1, inr e) =>
        if derives_Exception e
        then (mkState (self st) w1 (trace st), Returned tt)
        else (mkState (self st) w1 (trace st), Raised e)
    end.
Proof.
  unfold check_platform, try_except, dispatch_mentions.
  unfold bind at 1. unfold await at 1, fetch_mentions. cbn [fst snd].
  destruct (get_mentions a (world st)) as [w1 [ms | e]].
  - destruct (for_each ms _ (mkState (self st) w1 (trace st))) as [s2 [[] | e]];
      [reflexivity |]. now destruct (derives_Exception e).
  - now destruct (derives_Exception e).
Qed.

Lemma mention_context_is_mention p : is_mention (mention_context p) = true.
Proof.
  unfold is_mention, get, mention_context.
  rewrite lookup_insert_ne by discriminate. now rewrite lookup_singleton_eq.
Qed.

Lemma dispatch_mentions_quiet p (ms : list mention) :
  forall st,
    (forall t, t ∈ triggers (self st) -> quiet (trigger_callback t)) ->
    for_each ms (fun mention =>
       let! _ := await (check_triggers (text mention) (mention_context p)) in ret tt) st
    = (mkState (self st)
         (fold_left (fun w mn => dispatched (text mn) (mention_context p)
                                            (triggers (self st)) w) ms (world st))
         (trace st
          ++ flat_map (fun mn => flat_map (firing_events (text mn) (mention_context p))
                                          (triggers (self st))) ms),
       Returned tt).
Proof.
  induction ms as [| mn ms IH]; intros st Hq.
  - cbn. unfold ret. rewrite app_nil_r. now destruct st.
  - cbn [for_each fold_left flat_map]. unfold bind at 1. unfold bind at 1, await at 1.
    rewrite check_triggers_unfold, (rules_fold_quiet _ _ _ _ _ Hq).
    unfold ret at 1. rewrite IH by exact Hq. cbn [self world trace].
    now rewrite <- app_assoc.
Qed.

Lemma calls_mention_rule p cb (ms : list mention) :
  calls (flat_map (fun mn => flat_map (firing_events (text mn) (mention_context p))
                                      [mention_trigger cb]) ms)
  = length ms.
Proof.
  induction ms as [| mn ms IH]; [reflexivity |].
  change (calls (flat_map (firing_events (text mn) (mention_context p)) [mention_trigger cb]
                 ++ flat_map (fun mn => flat_map (firing_events (text mn) (mention_context p))
                                                 [mention_trigger cb]) ms)
          = S (length ms)).
  rewrite calls_app, IH. cbn [flat_map firing_events].
  now rewrite mention_context_is_mention.
Qed.

End MentionCheckFacts.

Section MentionCheckExtras.

Context {World : Type}.

Implicit Types (st : state World (TriggerManager World)) (t : Trigger World).
Implicit Types (cb : Callable World (string * context)) (m : string) (c : context).

(** X19.  [_check_mentions_task] keeps every [Exception] to itself: when
    the trigger callbacks and the adapters raise nothing but [Exception]s,
    it returns normally for any platforms and any mentions, and the
    registered rules are as before. *)
Theorem mention_check_contains_failures platforms st :
  (forall t, t ∈ triggers (self st) -> tame (trigger_callback t)) ->
  (forall item, item ∈ platforms -> tame_adapter (snd item)) ->
  exists st', _check_mentions_task platforms st = (st', Returned tt) /\ self st' = self st.
Proof.
  exact (check_mentions_returns platforms st).
Qed.

(** X20.  The handler around a platform covers all of its mentions at once.
    Whichever mention of a platform is the first whose dispatch raises, the
    mentions before it have been dispatched, the mentions after it are not,
    and what follows depends on what was raised: an [Exception] is caught,
    the platform is left and the task goes on with the next platform from
    the state the failure left; anything else ends the task there. *)
Theorem failing_mention_skips_rest_of_platform p (a : Adapter World) rest st w1
    before mn later st1 st2 e :
  get_mentions a (world st) = (w1, inl (before ++ mn :: later)) ->
  dispatch_mentions p before (mkState (self st) w1 (trace st)) = (st1, Returned tt) ->
  check_triggers (text mn) (mention_context p) st1 = (st2, Raised e) ->
  check_platform (p, a) st
  = (st2, if derives_Exception e then Returned tt else Raised e)
  /\ _check_mentions_task ((p, a) :: rest) st
     = if derives_Exception e then _check_mentions_task rest st2 else (st2, Raised e).
Proof.
  intros Hg Hb Hc.
  assert (E : check_platform (p, a) st
              = (st2, if derives_Exception e then Returned tt else Raised e)).
  { rewrite check_platform_unfold, Hg.
    rewrite (dispatch_mentions_stops p before later mn _ st1 st2 e Hb Hc).
    now destruct (derives_Exception e). }
  split; [exact E |].
  rewrite !check_mentions_unfold. cbn [for_each]. unfold bind at 1. rewrite E.
  now destruct (derives_Exception e).
Qed.

(** X21.  Every mention a platform returns is dispatched with a context
    that marks it as a mention, in the order returned: with callbacks that
    return, the trace holds the events of the rules for each mention in
    turn, and a manager holding one mention rule has its callback called
    exactly once per mention. *)
Theorem every_mention_is_dispatched_as_mention p (a : Adapter World) st w1 ms :
  get_mentions a (world st) = (w1, inl ms) ->
  (forall t, t ∈ triggers (self st) -> quiet (trigger_callback t)) ->
  let r := _check_mentions_task [(p, a)] st in
  snd r = Returned tt
  /\ is_mention (mention_context p) = true
  /\ trace (fst r)
     = trace st
       ++ flat_map (fun mn => flat_map (firing_events (text mn) (mention_context p))
                                       (triggers (self st))) ms
  /\ world (fst r)
     = fold_left (fun w mn => dispatched (text mn) (mention_context p)
                                         (triggers (self st)) w) ms w1
  /\ (forall cb, triggers (self st) = [mention_trigger cb] ->
        calls (trace (fst r)) = calls (trace st) + length ms).
Proof.
  intros Hg Hq r.
  assert (E : r = (mkState (self st)
                     (fold_left (fun w mn => dispatched (text mn) (mention_context p)
                                                        (triggers (self st)) w) ms w1)
                     (trace st
                      ++ flat_map (fun mn => flat_map (firing_events (text mn)
                                                         (mention_context p))
                                                      (triggers (self st))) ms),
                   Returned tt)).
  { unfold r. rewrite check_mentions_unfold. cbn [for_each]. unfold bind at 1.
    unfold check_platform, try_except. unfold bind at 1. unfold await at 1, fetch_mentions.
    cbn [fst snd]. rewrite Hg.
    rewrite (dispatch_mentions_quiet p ms (mkState (self st) w1 (trace st)) Hq).
    reflexivity. }
  rewrite E. cbn [fst snd trace world].
  split; [reflexivity |]. split; [apply mention_context_is_mention |].
  split; [reflexivity |]. split; [reflexivity |].
  intros cb Hts. rewrite Hts, calls_app. f_equal. apply calls_mention_rule.
Qed.

(** X22.  Scheduled as a task, the mention check hides the failures of the
    trigger handlers from the scheduler: whatever [Exception]s the handlers
    and the adapters raise, the action returns, so [_run_task] stamps the
    task and counts the run as completed. *)
Theorem failed_handlers_still_count_as_run platforms fname_
    (ost : state (state World (TriggerManager World))
                 (Orchestrator (state World (TriggerManager World))))
    now a tk :
  heap (self ost) !! a = Some tk ->
  callback tk = as_action fname_ (_check_mentions_task platforms) ->
  (forall t, t ∈ triggers (self (world ost)) -> tame (trigger_callback t)) ->
  (forall item, item ∈ platforms -> tame_adapter (snd item)) ->
  exists ost',
    _run_task now a ost = (ost', Returned tt)
    /\ heap (self ost') !! a = Some (completed now tk)
    /\ self (world ost') = self (world ost)
    /\ calls_of fname_ (trace ost') = calls_of fname_ (trace ost) + 1.
Proof.
  intros Ha Hcb Ht Hp.
  destruct (check_mentions_returns platforms (world ost) Ht Hp) as (s' & E & Hs).
  assert (Hb : body (callback tk) tt (world ost) = (s', None)).
  { rewrite Hcb. cbn [as_action body]. now rewrite E. }
  eexists. split; [exact (run_task_returns ost now a tk s' Ha Hb) |].
  cbn [self world trace heap set_heap].
  split; [apply list_lookup_insert_eq; eapply lookup_lt_Some, Ha |].
  split; [exact Hs |].
  unfold calls_of. rewrite List.filter_app, length_app. f_equal.
  rewrite Hcb. cbn [as_action fname List.filter is_call]. now rewrite String.eqb_refl.
Qed.

End MentionCheckExtras.

(** ** The memory store *)

Section MemoryFacts.

Implicit Types (s : MemoryStore) (h : list Message).

Lemma slice_from_last {A} (n : Z) (l : list A) :
  (0 < n)%Z -> slice_from (- n) l = drop (length l - Z.to_nat n) l.
Proof.
  intros Hn. unfold slice_from.
  assert (E : (- n <? 0)%Z = true) by (apply Z.ltb_lt; lia). rewrite E.
  f_equal. lia.
Qed.

Lemma slice_from_nonneg {A} (n : Z) (l : list A) :
  (n <= 0)%Z -> slice_from (- n) l = drop (Z.to_nat (- n)) l.
Proof.
  intros Hn. unfold slice_from.
  assert (E : (- n <? 0)%Z = false) by (apply Z.ltb_ge; lia). rewrite E.
  destruct (Z_le_gt_dec (- n) (Z.of_nat (length l))) as [H | H].
  - now rewrite Z.min_l.
  - rewrite Z.min_r by lia. rewrite Nat2Z.id.
    rewrite !drop_ge; [reflexivity | lia | lia].
Qed.

Lemma add_message_conversations cid r c md now s :
  conversations (add_message cid r c md now s)
  = <[cid := trimmed (max_history s)
               (history_of cid s ++ [mkMessage r c now (default ∅ md)])]> (conversations s).
Proof.
  unfold add_message, history_of, trimmed. cbn [conversations].
  set (msg := mkMessage r c now (default ∅ md)).
  destruct (conversations s !! cid) as [h |] eqn:E; cbn [default].
  - rewrite lookup_alter_eq, E. cbn [fmap option_fmap option_map default].
    destruct (max_history s <? _)%Z.
    + apply map_eq. intros k. destruct (decide (cid = k)) as [<- | Hne].
      * now rewrite !lookup_insert_eq.
      * now rewrite !lookup_insert_ne, lookup_alter_ne by exact Hne.
    + apply map_eq. intros k. destruct (decide (cid = k)) as [<- | Hne].
      * now rewrite lookup_alter_eq, lookup_insert_eq, E.
      * now rewrite lookup_insert_ne, lookup_alter_ne by exact Hne.
  - rewrite lookup_alter_eq, lookup_insert_eq.
    cbn [fmap option_fmap option_map default app].
    destruct (max_history s <? _)%Z.
    + apply map_eq. intros k. destruct (decide (cid = k)) as [<- | Hne].
      * now rewrite !lookup_insert_eq.
      * now rewrite !lookup_insert_ne, lookup_alter_ne, lookup_insert_ne by exact Hne.
    + apply map_eq. intros k. destruct (decide (cid = k)) as [<- | Hne].
      * now rewrite lookup_alter_eq, !lookup_insert_eq.
      * now rewrite lookup_insert_ne, lookup_alter_ne, lookup_insert_ne by exact Hne.
Qed.

Lemma add_message_history cid r c md now s :
  history_of cid (add_message cid r c md now s)
  = trimmed (max_history s) (history_of cid s ++ [mkMessage r c now (default ∅ md)]).
Proof.
  unfold history_of at 1. now rewrite add_message_conversations, lookup_insert_eq.
Qed.


End MemoryFacts.

Section MemoryCountFacts.

Implicit Types (s : MemoryStore) (h : list Message).

Lemma count_messages_insert (m : gmap string (list Message)) cid h :
  m !! cid = None -> count_messages (<[cid := h]> m) = count_messages m + length h.
Proof.
  intros H. unfold count_messages.
  rewrite map_fold_insert_L; [reflexivity | | exact H].
  intros. lia.
Qed.

Lemma count_messages_split (m : gmap string (list Message)) cid :
  count_messages m
  = count_messages (delete cid m) + length (default [] (m !! cid)).
Proof.
  destruct (m !! cid) as [h |] eqn:E; cbn [default length].
  - rewrite <- (insert_delete_id m cid h E) at 1.
    now rewrite count_messages_insert by apply lookup_delete_eq.
  - rewrite delete_id by exact E. lia.
Qed.

End MemoryCountFacts.

Section MemoryExtras.

Implicit Types (s : MemoryStore) (h : list Message).

(** X23.  With a positive [max_history], after [add_message] the
    conversation holds the newest messages only: its history is the old one
    with the new message appended, cut to its last [max_history] entries,
    whatever its length was before; the new message is last. *)
Theorem add_message_keeps_newest_within_limit cid r c md now s :
  (0 < max_history s)%Z ->
  let msg := mkMessage r c now (default ∅ md) in
  let old := history_of cid s in
  let new := history_of cid (add_message cid r c md now s) in
  new = drop (length (old ++ [msg]) - Z.to_nat (max_history s)) (old ++ [msg])
  /\ Z.of_nat (length new) = Z.min (Z.of_nat (length old) + 1) (max_history s)
  /\ last new = Some msg
  /\ max_history (add_message cid r c md now s) = max_history s.
Proof.
  intros Hmax msg old new.
  assert (Hnew : new = drop (length (old ++ [msg]) - Z.to_nat (max_history s))
                            (old ++ [msg])).
  { unfold new. rewrite add_message_history. fold msg old. unfold trimmed.
    destruct (max_history s <? Z.of_nat (length (old ++ [msg])))%Z eqn:E.
    - now apply slice_from_last.
    - apply Z.ltb_ge in E.
      replace (length (old ++ [msg]) - Z.to_nat (max_history s)) with 0 by lia.
      reflexivity. }
  split; [exact Hnew |].
  split; [rewrite Hnew, length_drop, length_app; cbn [length]; lia |].
  split; [| reflexivity].
  rewrite Hnew, drop_app_le by (rewrite length_app; cbn [length]; lia).
  apply last_snoc.
Qed.

(** X24.  A [max_history] of zero does not mean an empty history: the slice
    [[-0:]] is the whole list, so nothing is ever dropped and the
    conversation grows with every message.  A negative [max_history] drops
    that many of the oldest messages at every call. *)
Theorem add_message_nonpositive_limit cid r c md now s :
  (max_history s <= 0)%Z ->
  let msg := mkMessage r c now (default ∅ md) in
  let old := history_of cid s in
  let new := history_of cid (add_message cid r c md now s) in
  new = drop (Z.to_nat (- max_history s)) (old ++ [msg])
  /\ (max_history s = 0%Z -> new = old ++ [msg]).
Proof.
  intros Hmax msg old new.
  assert (Hnew : new = drop (Z.to_nat (- max_history s)) (old ++ [msg])).
  { unfold new. rewrite add_message_history. fold msg old. unfold trimmed.
    assert (E : (max_history s <? Z.of_nat (length (old ++ [msg])))%Z = true).
    { apply Z.ltb_lt. rewrite length_app. cbn [length]. lia. }
    rewrite E. now apply slice_from_nonneg. }
  split; [exact Hnew |].
  intros E0. rewrite Hnew, E0. reflexivity.
Qed.


(** X26.  After [clear_conversation] the conversation reads as empty and
    the others are as before; clearing a conversation that does not exist
    changes nothing.  After [clear_all] every conversation reads as empty
    and the statistics are zero.  Neither touches [max_history]. *)
Theorem clearing_forgets_only_what_is_cleared cid s :
  (forall fmt last_n, get_history cid fmt last_n (clear_conversation cid s) = [])
  /\ (forall cid' fmt last_n,
        cid' <> cid ->
        get_history cid' fmt last_n (clear_conversation cid s)
        = get_history cid' fmt last_n s)
  /\ (conversations s !! cid = None -> clear_conversation cid s = s)
  /\ max_history (clear_conversation cid s) = max_history s
  /\ (forall cid' fmt last_n, get_history cid' fmt last_n (clear_all s) = [])
  /\ total_conversations (get_stats (clear_all s)) = 0
  /\ total_messages (get_stats (clear_all s)) = 0.
Proof.
  split.
  { intros fmt last_n. unfold get_history, clear_conversation.
    destruct (conversations s !! cid) as [h |] eqn:E; cbn [conversations].
    - now rewrite lookup_delete_eq.
    - now rewrite E. }
  split.
  { intros cid' fmt last_n Hne. unfold get_history, clear_conversation.
    destruct (conversations s !! cid) as [h |] eqn:E; cbn [conversations];
      [| reflexivity].
    now rewrite lookup_delete_ne by congruence. }
  split; [intros E; unfold clear_conversation; now rewrite E |].
  split; [unfold clear_conversation; now destruct (conversations s !! cid) |].
  split; [reflexivity |].
  split; reflexivity.
Qed.

(** X27.  [get_stats] counts what the conversations hold: the size reported
    for a conversation is the length of its history, and [add_message]
    moves [total_messages] by the change in length of the one conversation
    it writes, so by one when the conversation is below a positive
    [max_history] and by nothing when it is full. *)
Theorem stats_follow_add_message cid r c md now s :
  let s' := add_message cid r c md now s in
  conversation_sizes (get_stats s) !! cid = length <$> conversations s !! cid
  /\ total_messages (get_stats s') + length (history_of cid s)
     = total_messages (get_stats s) + length (history_of cid s')
  /\ ((0 < max_history s)%Z ->
      (Z.of_nat (length (history_of cid s)) < max_history s)%Z ->
      total_messages (get_stats s') = total_messages (get_stats s) + 1)
  /\ ((0 < max_history s)%Z ->
      Z.of_nat (length (history_of cid s)) = max_history s ->
      total_messages (get_stats s') = total_messages (get_stats s)).
Proof.
  intros s'.
  assert (Hsum : total_messages (get_stats s') + length (history_of cid s)
                 = total_messages (get_stats s) + length (history_of cid s')).
  { cbn [get_stats total_messages].
    rewrite (count_messages_split (conversations s) cid).
    unfold s'. rewrite add_message_conversations.
    set (h' := trimmed _ _).
    assert (Hh : history_of cid (add_message cid r c md now s) = h')
      by apply add_message_history.
    rewrite <- (insert_delete_eq (conversations s)).
    rewrite count_messages_insert by apply lookup_delete_eq.
    rewrite Hh. unfold history_of. lia. }
  split; [cbn [get_stats conversation_sizes]; apply lookup_fmap |].
  split; [exact Hsum |].
  assert (Hlen : (0 < max_history s)%Z ->
                 Z.of_nat (length (history_of cid s'))
                 = Z.min (Z.of_nat (length (history_of cid s)) + 1) (max_history s)).
  { intros Hmax. unfold s'. rewrite add_message_history. unfold trimmed.
    set (h := history_of cid s ++ _).
    assert (Hl : length h = length (history_of cid s) + 1)
      by (unfold h; rewrite length_app; reflexivity).
    destruct (max_history s <? Z.of_nat (length h))%Z eqn:E.
    - apply Z.ltb_lt in E. rewrite (slice_from_last _ h Hmax), length_drop. lia.
    - apply Z.ltb_ge in E. lia. }
  split; intros Hmax Hroom; specialize (Hlen Hmax); lia.
Qed.

End MemoryExtras.

Lemma add_message_keeps_newest_within_limit_witness :
  let s := add_message "c" "user" "three" None 3
             (add_message "c" "assistant" "two" None 2
                (add_message "c" "user" "one" None 1 small_store)) in
  (0 < max_history s)%Z
  /\ map content (history_of "c" (add_message "c" "assistant" "four" None 4 s))
     = ["two"; "three"; "four"].
Proof.
  intros s.
  assert (H : (0 < max_history s)%Z) by reflexivity.
  split; [exact H |].
  rewrite (proj1 (add_message_keeps_newest_within_limit "c" "assistant" "four" None 4 s H)).
  reflexivity.
Defined.

Lemma add_message_nonpositive_limit_witness :
  let s := add_message "c" "user" "one" None 1 (mkMemoryStore 0 ∅) in
  (max_history s <= 0)%Z
  /\ map content (history_of "c" (add_message "c" "assistant" "two" None 2 s))
     = ["one"; "two"].
Proof.
  intros s.
  assert (H : (max_history s <= 0)%Z) by discriminate.
  split; [exact H |].
  rewrite (proj2 (add_message_nonpositive_limit "c" "assistant" "two" None 2 s H) eq_refl).
  reflexivity.
Defined.


Lemma clearing_forgets_only_what_is_cleared_witness :
  conversations small_store !! "c" = None
  /\ clear_conversation "c" small_store = small_store.
Proof.
  assert (H : conversations small_store !! "c" = None) by reflexivity.
  split; [exact H |].
  exact (proj1 (proj2 (proj2 (clearing_forgets_only_what_is_cleared "c" small_store))) H).
Defined.

Lemma stats_follow_add_message_witness :
  (0 < max_history small_store)%Z
  /\ (Z.of_nat (length (history_of "c" small_store)) < max_history small_store)%Z
  /\ total_messages (get_stats (add_message "c" "user" "one" None 1 small_store))
     = total_messages (get_stats small_store) + 1.
Proof.
  assert (H1 : (0 < max_history small_store)%Z) by reflexivity.
  assert (H2 : (Z.of_nat (length (history_of "c" small_store)) < max_history small_store)%Z)
    by reflexivity.
  split; [exact H1 |]. split; [exact H2 |].
  exact (proj1 (proj2 (proj2
           (stats_follow_add_message "c" "user" "one" None 1 small_store))) H1 H2).
Defined.

(** ** The extras on the examples *)

Lemma two_tasks_well_formed : well_formed (self two_tasks).
Proof. split; repeat constructor. Qed.

Lemma toggle_sets_flag_by_name_witness :
  well_formed (self two_tasks)
  /\ exists st',
       disable_task "x" two_tasks = (st', Returned tt)
       /\ status_tasks (get_status (self st'))
          = [mkTaskStatus "x" false 10 None 0; mkTaskStatus "y" false 20 None 0].
Proof.
  split; [exact two_tasks_well_formed |].
  destruct (proj2 (toggle_sets_flag_by_name two_tasks "x" two_tasks_well_formed))
    as (st' & H1 & H2 & _).
  exists st'. split; [exact H1 |]. rewrite H2. reflexivity.
Defined.

Lemma toggle_absent_name_is_noop_witness :
  (forall s, s ∈ status_tasks (get_status (self two_tasks)) -> status_name s <> "z")
  /\ enable_task "z" two_tasks = (two_tasks, Returned tt).
Proof.
  assert (H : forall s, s ∈ status_tasks (get_status (self two_tasks))
                        -> status_name s <> "z").
  { intros s Hs. cbn in Hs.
    apply elem_of_cons in Hs as [-> | Hs]; [discriminate |].
    apply list_elem_of_singleton in Hs as ->. discriminate. }
  split; [exact H |].
  exact (proj1 (toggle_absent_name_is_noop two_tasks "z" H)).
Defined.

Lemma start_twice_creates_loops_once_witness :
  (running (self two_tasks) = true \/ tasks (self two_tasks) <> [])
  /\ running (self (after two_tasks start)) = true
  /\ loops (self (after two_tasks start)) = [0; 1]
  /\ loops (self (after (after two_tasks start) start)) = [0; 1].
Proof.
  assert (H : running (self two_tasks) = true \/ tasks (self two_tasks) <> [])
    by (right; discriminate).
  assert (Hr : running (self two_tasks) = false) by reflexivity.
  destruct (start_twice_creates_loops_once two_tasks)
    as (_ & _ & H1 & _ & H2 & _).
  split; [exact H |].
  split; [exact (proj1 (H2 H)) |].
  split; [exact (proj1 (H1 Hr)) |].
  unfold after at 1. rewrite (proj2 (H2 H)). reflexivity.
Defined.

Lemma setup_registers_enabled_known_tasks_witness :
  well_formed (self fresh)
  /\ exists st',
       _setup_orchestrator counting_runner tasks_config fresh = (st', Returned tt)
       /\ status_tasks (get_status (self st'))
          = [mkTaskStatus "auto_post" true 3600 None 0;
             mkTaskStatus "check_mentions" true 300 None 0].
Proof.
  assert (H : well_formed (self fresh)) by (split; constructor).
  split; [exact H |].
  destruct (setup_registers_enabled_known_tasks counting_runner tasks_config fresh H)
    as (st' & H1 & H2 & _).
  exists st'. split; [exact H1 |]. rewrite H2. reflexivity.
Defined.

Lemma counting_handler_quiet : quiet (handle_keyword_trigger counting_runner).
Proof. intros args w. reflexivity. Qed.

Lemma mention_with_keywords_is_handled_repeatedly_witness :
  truthy (enable_keyword_triggers both_triggers) = true
  /\ truthy (enable_mention_triggers both_triggers) = true
  /\ quiet (handle_keyword_trigger counting_runner)
  /\ is_mention mentioned = true
  /\ world (after (after (init_triggers 0) (_setup_triggers counting_runner both_triggers))
                  (check_triggers "gm ser, WAGMI" mentioned))
     = 4.
Proof.
  assert (H1 : truthy (enable_keyword_triggers both_triggers) = true) by reflexivity.
  assert (H2 : truthy (enable_mention_triggers both_triggers) = true) by reflexivity.
  assert (H4 : is_mention mentioned = true) by reflexivity.
  split; [exact H1 |]. split; [exact H2 |]. split; [exact counting_handler_quiet |].
  split; [exact H4 |].
  rewrite (proj1 (proj2 (proj2
             (mention_with_keywords_is_handled_repeatedly counting_runner both_triggers 0
                "gm ser, WAGMI" mentioned H1 H2 counting_handler_quiet H4)))).
  reflexivity.
Defined.

Lemma failing_then_greet_tame :
  forall t, t ∈ triggers (self failing_then_greet) -> tame (trigger_callback t).
Proof.
  intros t Ht. cbn in Ht.
  apply elem_of_cons in Ht as [-> | Ht].
  - intros args w e H. cbn in H. now inversion H.
  - apply list_elem_of_singleton in Ht as ->. intros args w e H. discriminate.
Qed.

Lemma two_mentions_tame :
  forall item, item ∈ [("twitter", two_mentions)] -> tame_adapter (snd item).
Proof.
  intros item Hi. apply list_elem_of_singleton in Hi as ->.
  intros w e H. discriminate.
Qed.

Lemma mention_check_contains_failures_witness :
  (forall t, t ∈ triggers (self failing_then_greet) -> tame (trigger_callback t))
  /\ (forall item, item ∈ [("twitter", two_mentions)] -> tame_adapter (snd item))
  /\ exists st',
       _check_mentions_task [("twitter", two_mentions)] failing_then_greet
       = (st', Returned tt)
       /\ self st' = self failing_then_greet.
Proof.
  split; [exact failing_then_greet_tame |]. split; [exact two_mentions_tame |].
  exact (mention_check_contains_failures [("twitter", two_mentions)] failing_then_greet
           failing_then_greet_tame two_mentions_tame).
Defined.

Lemma failing_mention_skips_rest_of_platform_witness :
  let st := wagmi_fails in
  let st1 := mkState (self st) 1 (trace st ++ hit_events reply "fren") in
  let st2 := mkState (self st) 1
               (trace st ++ hit_events reply "fren" ++ hit_events failing_reply "wagmi") in
  get_mentions three_mentions (world st)
  = (0, inl ([mkMention "hello fren"] ++ mkMention "wagmi" :: [mkMention "fren again"]))
  /\ dispatch_mentions "twitter" [mkMention "hello fren"] (mkState (self st) 0 (trace st))
     = (st1, Returned tt)
  /\ check_triggers "wagmi" (mention_context "twitter") st1 = (st2, Raised boom)
  /\ _check_mentions_task [("twitter", three_mentions)] st = (st2, Returned tt)
  /\ calls_of "reply" (trace st2) = 1.
Proof.
  intros st st1 st2.
  assert (H1 : get_mentions three_mentions (world st)
               = (0, inl ([mkMention "hello fren"] ++ mkMention "wagmi"
                          :: [mkMention "fren again"]))) by reflexivity.
  assert (H2 : dispatch_mentions "twitter" [mkMention "hello fren"]
                 (mkState (self st) 0 (trace st))
               = (st1, Returned tt)) by reflexivity.
  assert (H3 : check_triggers "wagmi" (mention_context "twitter") st1
               = (st2, Raised boom)) by reflexivity.
  split; [exact H1 |]. split; [exact H2 |]. split; [exact H3 |].
  split; [| reflexivity].
  exact (proj2 (failing_mention_skips_rest_of_platform "twitter" three_mentions [] st 0
                  [mkMention "hello fren"] (mkMention "wagmi") [mkMention "fren again"]
                  st1 st2 boom H1 H2 H3)).
Defined.

Lemma mention_rule_quiet :
  forall t, t ∈ triggers (self mention_rule) -> quiet (trigger_callback t).
Proof.
  intros t Ht. apply list_elem_of_singleton in Ht as ->. exact reply_quiet.
Qed.

Lemma every_mention_is_dispatched_as_mention_witness :
  get_mentions two_mentions (world mention_rule)
  = (0, inl [mkMention "gm fren"; mkMention "wagmi"])
  /\ (forall t, t ∈ triggers (self mention_rule) -> quiet (trigger_callback t))
  /\ calls (trace (fst (_check_mentions_task [("twitter", two_mentions)] mention_rule)))
     = calls (trace mention_rule) + 2.
Proof.
  assert (H1 : get_mentions two_mentions (world mention_rule)
               = (0, inl [mkMention "gm fren"; mkMention "wagmi"])) by reflexivity.
  split; [exact H1 |]. split; [exact mention_rule_quiet |].
  exact (proj2 (proj2 (proj2 (proj2
           (every_mention_is_dispatched_as_mention "twitter" two_mentions mention_rule 0
              [mkMention "gm fren"; mkMention "wagmi"] H1 mention_rule_quiet))))
           reply eq_refl).
Defined.

Lemma failed_handlers_still_count_as_run_witness :
  let tk := mkTask "check_mentions"
              (as_action "_check_mentions_task"
                 (_check_mentions_task [("twitter", two_mentions)]))
              300 true None 0 in
  heap (self mention_checker) !! 0 = Some tk
  /\ (forall t, t ∈ triggers (self (world mention_checker)) -> tame (trigger_callback t))
  /\ (forall item, item ∈ [("twitter", two_mentions)] -> tame_adapter (snd item))
  /\ exists ost',
       _run_task 500 0 mention_checker = (ost', Returned tt)
       /\ heap (self ost') !! 0 = Some (completed 500 tk).
Proof.
  intros tk.
  assert (H1 : heap (self mention_checker) !! 0 = Some tk) by reflexivity.
  split; [exact H1 |]. split; [exact failing_then_greet_tame |].
  split; [exact two_mentions_tame |].
  destruct (failed_handlers_still_count_as_run [("twitter", two_mentions)]
              "_check_mentions_task" mention_checker 500 0 tk H1 eq_refl
              failing_then_greet_tame two_mentions_tame)
    as (ost' & E1 & E2 & _).
  exists ost'. split; [exact E1 | exact E2].
Defined.
